(** * Healthcare ETL analytics: a shallow embedding of
      [healthcare_etl_analytics.py] and the properties of its range join.

    The script is a straight-line PySpark job.  Each DataFrame stage of the
    script becomes a Rocq definition carrying the name the script gives it
    ([patients_df], [readmissions_df], [joined_df], [final_df]); the Spark
    SQL functions the script calls ([regexp_extract], [cast], [between],
    [monotonically_increasing_id], [withColumn], [join], [select], [groupBy],
    [count], [orderBy], [avg], [round], [show]) become functions over lists
    of rows.

    Conventions of the embedding.
    - Spark runs with its SQL defaults of the 3.x line (ANSI mode off): a
      failed cast yields null and 32-bit integer arithmetic wraps around.
    - A DataFrame is a list of column names, the list of their types and a
      list of rows; a row is a list of cells.  The types of a source are the
      ones schema inference gives its columns ([inferSchema=True]).
    - Analysis errors are the [Err] results of the [result] monad: a column
      that cannot be resolved or that resolves twice, and an expression
      whose operand has a type it does not accept (a date, timestamp or
      boolean column compared with an integer, or averaged).
    - The patient [age] column can be of any type.  An integral, double or
      string column is compared with [age_lower] as Spark compares it: by
      value, a string after its cast to an integer.
    - Three things the script leaves to the engine are parameters of the
      embedding (class [Engine]): the cast of an arbitrary string to an
      integer, and [avg] and [round], which Spark computes in double
      precision.  The theorems hold for every engine.
    - Spark does not promise a row order for joins and aggregations.  The
      embedding enumerates the left side first and keeps groups in order of
      first occurrence; the theorems below state counts, membership and
      permutations, which do not depend on that choice. *)

From Stdlib Require Import ZArith List String Ascii Bool Lia Arith.
From Stdlib Require Import QArith Qround Sorted Permutation.
Import ListNotations.

Local Open Scope string_scope.
Local Open Scope list_scope.
Local Open Scope Z_scope.

(** ** The interval parser: [regexp_extract(col("age"), r"\[(\d+)-\d+\)", 1)] *)

Module Regex.
Local Open Scope string_scope.

(** [\d] of [java.util.regex] without flags: the ASCII digits. *)
Definition is_digit (c : ascii) : bool :=
  ((48 <=? N_of_ascii c) && (N_of_ascii c <=? 57))%N.

Fixpoint all_digits (s : string) : bool :=
  match s with
  | EmptyString => true
  | String c t => is_digit c && all_digits t
  end.

Definition starts_nondigit (s : string) : bool :=
  match s with
  | EmptyString => true
  | String c _ => negb (is_digit c)
  end.

(** The greedy [\d+] step: the longest run of digits at the head of [s] and
    what follows it. *)
Fixpoint span_digits (s : string) : string * string :=
  match s with
  | EmptyString => (EmptyString, EmptyString)
  | String c t =>
      if is_digit c
      then let (d, r) := span_digits t in (String c d, r)
      else (EmptyString, s)
  end.

(** One attempt of the pattern [\[(\d+)-\d+\)] at the head of [s]; the result
    is capture group 1.  A shorter digit run can never help the matcher: the
    character after it would be a digit, where the pattern wants [-] or [)]. *)
Definition match_here (s : string) : option string :=
  match s with
  | String "["%char t =>
      match span_digits t with
      | (EmptyString, _) => None
      | (d, String "-"%char t2) =>
          match span_digits t2 with
          | (EmptyString, _) => None
          | (_, String ")"%char _) => Some d
          | _ => None
          end
      | _ => None
      end
  | _ => None
  end.

(** [Matcher.find()]: the attempts run from left to right and the first
    success wins. *)
Fixpoint find (s : string) : option string :=
  match match_here s with
  | Some d => Some d
  | None =>
      match s with
      | EmptyString => None
      | String _ t => find t
      end
  end.

(** [regexp_extract(str, pattern, 1)]: group 1 of the first match, the empty
    string when nothing matches. *)
Definition regexp_extract (s : string) : string :=
  match find s with
  | Some d => d
  | None => EmptyString
  end.

(** *** What the pattern means, independently of the matcher *)

Definition digit_run (d : string) : Prop :=
  d <> EmptyString /\ all_digits d = true.

(** [s] holds [[d-u)] after [n] leading characters. *)
Definition occurs_at (s : string) (n : nat) (d : string) : Prop :=
  exists pre u post,
    String.length pre = n /\
    s = pre ++ "[" ++ d ++ "-" ++ u ++ ")" ++ post /\
    digit_run d /\ digit_run u.

Definition contains_bucket (s : string) : Prop :=
  exists n d, occurs_at s n d.

Definition first_bucket (s : string) (d : string) : Prop :=
  exists n, occurs_at s n d /\
            forall m d', occurs_at s m d' -> (n <= m)%nat.

End Regex.

(** ** [.cast("integer")] on the strings [regexp_extract] produces *)

Module Cast.

Definition int_min : Z := -2147483648.
Definition int_max : Z := 2147483647.

(** Java [int] arithmetic: the result reduced to 32 bits, two's complement. *)
Definition wrap32 (z : Z) : Z := (z + 2147483648) mod 4294967296 - 2147483648.

Definition digit_of (c : ascii) : Z := Z.of_N (N_of_ascii c) - 48.

Fixpoint digits_value_from (acc : Z) (s : string) : Z :=
  match s with
  | EmptyString => acc
  | String c t => digits_value_from (acc * 10 + digit_of c) t
  end.

Definition digits_value (s : string) : Z := digits_value_from 0 s.

(** String to [IntegerType].  The empty string is not a number and a digit
    run beyond [Integer.MAX_VALUE] does not fit: both cast to null.  Only the
    empty string and non-empty digit runs reach this cast (lemma
    [regexp_extract_shape]); every other string is left at null here. *)
Definition cast_integer (s : string) : option Z :=
  match s with
  | EmptyString => None
  | _ =>
      if Regex.all_digits s
      then if digits_value s <=? int_max then Some (digits_value s) else None
      else None
  end.

End Cast.

(** The derived column of step 5, on one label. *)
Definition age_lower (label : string) : option Z :=
  Cast.cast_integer (Regex.regexp_extract label).

(** ** Cells, rows, DataFrames *)

Inductive value : Type :=
| VNull
| VInt (n : Z)        (* IntegerType, LongType and integral DecimalType cells *)
| VDouble (q : Q)     (* finite DoubleType cells, by their exact value *)
| VStr (s : string)
| VNaN                          (* DoubleType: not a number *)
| VInfinity (negative : bool)   (* DoubleType: the two infinities *)
| VBool (b : bool)
| VDate (day : Z)               (* days since the epoch *)
| VTimestamp (micros : Z).      (* microseconds since the epoch *)

(** The column types schema inference can give a delimited file. *)
Inductive dtype : Type :=
| NullType
| IntegerType
| LongType
| DecimalType
| DoubleType
| BooleanType
| DateType
| TimestampType
| StringType.

Definition Row : Type := list value.

(** A DataFrame: its schema (the column names and their types, in order)
    and its rows, kept by partition as Spark holds them. *)
Record DataFrame : Type := mkDF {
  columns : list string;
  types : list dtype;
  partitions : list (list Row)
}.

Definition rows (df : DataFrame) : list Row := List.concat (partitions df).

(** [df.count()] *)
Definition count (df : DataFrame) : Z := Z.of_nat (List.length (rows df)).

Definition value_eq_dec (a b : value) : {a = b} + {a <> b}.
Proof.
  decide equality;
    try apply Z.eq_dec; try apply string_dec; try apply Bool.bool_dec.
  decide equality; [apply Pos.eq_dec | apply Z.eq_dec].
Defined.

Definition value_eqb (a b : value) : bool :=
  if value_eq_dec a b then true else false.

(** The typed view of a cell of an integer column; a null cell has no
    value. *)
Definition int_cell (v : value) : option Z :=
  match v with VInt n => Some n | _ => None end.

Definition cell (i : nat) (r : Row) : value := nth i r VNull.

Definition type_at (i : nat) (tys : list dtype) : dtype := nth i tys StringType.

(** ** Analysis errors *)

Inductive error : Type :=
| Unresolved (name : string)   (* AnalysisException: cannot resolve column *)
| Ambiguous (name : string)    (* AnalysisException: reference is ambiguous *)
| Mismatch (function : string). (* AnalysisException: data type mismatch *)

Inductive result (A : Type) : Type :=
| Ok (a : A)
| Err (e : error).
Arguments Ok {A} a.
Arguments Err {A} e.

Definition bind {A B : Type} (m : result A) (k : A -> result B) : result B :=
  match m with
  | Ok a => k a
  | Err e => Err e
  end.

Notation "x <- m ;; k" := (bind m (fun x => k))
  (at level 61, m at next level, right associativity).

Fixpoint mapM {A B : Type} (f : A -> result B) (l : list A) : result (list B) :=
  match l with
  | [] => Ok []
  | a :: t => b <- f a ;; bs <- mapM f t ;; Ok (b :: bs)
  end.

(** The positions of [name] in a schema, counted from [i]. *)
Fixpoint positions (name : string) (cols : list string) (i : nat) : list nat :=
  match cols with
  | [] => []
  | c :: cs =>
      if String.eqb c name
      then i :: positions name cs (S i)
      else positions name cs (S i)
  end.

(** A column reference resolves when exactly one column carries the name. *)
Definition resolve (cols : list string) (name : string) : result nat :=
  match positions name cols 0 with
  | [] => Err (Unresolved name)
  | [i] => Ok i
  | _ => Err (Ambiguous name)
  end.

(** ** What the script leaves to the engine *)

(** The script relies on three Spark functions whose results it does not
    determine: the cast of a string to [IntegerType] on arbitrary text (it
    is applied to the cells of a string-typed patient [age] column when they
    are compared with [age_lower]), and [avg] and [round], which are
    computed in double precision ([avg] also casts the cells of a string
    column to doubles).  They are parameters; nothing is assumed of them. *)
Class Engine : Type := {
  string_to_int : string -> option Z;
  avg : list value -> value;
  round : nat -> value -> value
}.

(** ** Steps 2 and 3: reading the sources and normalising column names *)

(** A delimited file as the reader delivers it.  The header holds the column
    names after the reader's own renaming: a name that repeats another up to
    case has the index of its column appended, so no two names of a header
    differ by case only.  The data lines are kept by input split, cell by
    cell, each cell parsed to the type inferred for its column (a column
    inferred as string holds strings, one inferred as double doubles). *)
Record CsvFile : Type := mkCsv {
  header : list string;
  splits : list (list Row)
}.

(** The reader's permissive mode: a line with too few cells is padded with
    nulls and surplus cells are dropped, so every row has one cell per
    column. *)
Definition fit (n : nat) (r : Row) : Row := firstn n (r ++ repeat VNull n).

(** Schema inference.  The type of one cell: *)
Definition cell_type (v : value) : dtype :=
  match v with
  | VNull => NullType
  | VInt n =>
      if (Cast.int_min <=? n) && (n <=? Cast.int_max) then IntegerType
      else if (- 9223372036854775808 <=? n) && (n <=? 9223372036854775807)
           then LongType
           else DecimalType
  | VDouble _ | VNaN | VInfinity _ => DoubleType
  | VStr _ => StringType
  | VBool _ => BooleanType
  | VDate _ => DateType
  | VTimestamp _ => TimestampType
  end.

(** The numeric types, by width. *)
Definition width (t : dtype) : option nat :=
  match t with
  | IntegerType => Some 0%nat
  | LongType => Some 1%nat
  | DecimalType => Some 2%nat
  | DoubleType => Some 3%nat
  | _ => None
  end.

Definition widest (n : nat) : dtype :=
  match n with
  | 0%nat => IntegerType
  | 1%nat => LongType
  | 2%nat => DecimalType
  | _ => DoubleType
  end.

(** The type that holds the cells of both types: numbers widen, a date
    widens to a timestamp, and everything else meets in the string type. *)
Definition merge (a b : dtype) : dtype :=
  match a, b with
  | NullType, t => t
  | t, NullType => t
  | _, _ =>
      match width a, width b with
      | Some m, Some n => widest (Nat.max m n)
      | _, _ =>
          match a, b with
          | BooleanType, BooleanType => BooleanType
          | DateType, DateType => DateType
          | DateType, TimestampType => TimestampType
          | TimestampType, DateType => TimestampType
          | TimestampType, TimestampType => TimestampType
          | _, _ => StringType
          end
      end
  end.

(** A column without a single value is a string column. *)
Definition infer_column (cells : list value) : dtype :=
  match fold_left merge (map cell_type cells) NullType with
  | NullType => StringType
  | t => t
  end.

Definition infer_schema (n : nat) (rs : list Row) : list dtype :=
  map (fun i => infer_column (map (cell i) rs)) (seq 0 n).

(** [spark.read.csv(path, header=True, inferSchema=True)] *)
Definition read_csv (f : CsvFile) : DataFrame :=
  let parts := map (map (fit (List.length (header f)))) (splits f) in
  mkDF (header f)
       (infer_schema (List.length (header f)) (List.concat parts))
       parts.

(** [c.lower()] on the ASCII letters and [.replace(" ", "_")].  (Python
    also lowers the letters beyond ASCII; the theorems below do not depend
    on what the normalised name of a header is, and the sample headers are
    ASCII.) *)
Definition lower_char (c : ascii) : ascii :=
  let n := N_of_ascii c in
  if ((65 <=? n) && (n <=? 90))%N then ascii_of_N (n + 32) else c.

Definition underscore_char (c : ascii) : ascii :=
  if Ascii.eqb c " "%char then "_"%char else c.

Fixpoint map_string (f : ascii -> ascii) (s : string) : string :=
  match s with
  | EmptyString => EmptyString
  | String c t => String (f c) (map_string f t)
  end.

Definition normalize (c : string) : string :=
  map_string underscore_char (map_string lower_char c).

(** [df.toDF( *[c.lower().replace(" ", "_") for c in df.columns])] *)
Definition normalize_columns (df : DataFrame) : DataFrame :=
  mkDF (map normalize (columns df)) (types df) (partitions df).

(** ** Column expressions and [withColumn] *)

(** A column expression is analysed against a schema, which gives its type,
    and then evaluated on every row; the evaluation sees the index of the
    row's partition and the row's position in it. *)
Definition Column : Type :=
  list string -> list dtype -> result (dtype * (nat -> nat -> Row -> value)).

Definition col (name : string) : Column :=
  fun cols tys =>
    i <- resolve cols name ;; Ok (type_at i tys, fun _ _ r => cell i r).

(** Java [long] arithmetic. *)
Definition wrap64 (z : Z) : Z :=
  (z + 9223372036854775808) mod 18446744073709551616 - 9223372036854775808.

(** [monotonically_increasing_id()]: the partition index in the upper 31
    bits, the record number within the partition in the lower 33 bits. *)
Definition mono_id (partition record : nat) : Z :=
  wrap64 (Z.shiftl (Z.of_nat partition) 33 + Z.of_nat record).

Definition monotonically_increasing_id : Column :=
  fun _ _ => Ok (LongType, fun k i _ => VInt (mono_id k i)).

(** [regexp_extract(c, r"\[(\d+)-\d+\)", 1)]: null on a null input.  A cell
    that is not a string is cast to one first; the text of a number, a
    boolean, a date or a timestamp has no bracket and extracts the empty
    string. *)
Definition regexp_extract_cell (v : value) : value :=
  match v with
  | VNull => VNull
  | VStr s => VStr (Regex.regexp_extract s)
  | _ => VStr EmptyString
  end.

Definition cast_integer_cell (v : value) : value :=
  match v with
  | VStr s => match Cast.cast_integer s with Some n => VInt n | None => VNull end
  | _ => VNull
  end.

Definition regexp_extract (c : Column) : Column :=
  fun cols tys =>
    tf <- c cols tys ;;
    Ok (StringType, fun k i r => regexp_extract_cell (snd tf k i r)).

Definition cast_integer (c : Column) : Column :=
  fun cols tys =>
    tf <- c cols tys ;;
    Ok (IntegerType, fun k i r => cast_integer_cell (snd tf k i r)).

Definition has_column (name : string) (cols : list string) : bool :=
  existsb (String.eqb name) cols.

Fixpoint replace_cells (cols : list string) (name : string) (v : value)
    (r : Row) : Row :=
  match cols, r with
  | c :: cs, x :: xs =>
      (if String.eqb c name then v else x) :: replace_cells cs name v xs
  | _, _ => r
  end.

Definition put_column (cols : list string) (name : string) : list string :=
  if has_column name cols then cols else cols ++ [name].

Definition put_cell (cols : list string) (name : string) (v : value)
    (r : Row) : Row :=
  if has_column name cols then replace_cells cols name v r else r ++ [v].

Fixpoint replace_types (cols : list string) (name : string) (t : dtype)
    (tys : list dtype) : list dtype :=
  match cols, tys with
  | c :: cs, x :: xs =>
      (if String.eqb c name then t else x) :: replace_types cs name t xs
  | _, _ => tys
  end.

Definition put_type (cols : list string) (name : string) (t : dtype)
    (tys : list dtype) : list dtype :=
  if has_column name cols then replace_types cols name t tys else tys ++ [t].

Fixpoint map_indexed {A B : Type} (f : nat -> A -> B) (i : nat) (l : list A)
    : list B :=
  match l with
  | [] => []
  | a :: t => f i a :: map_indexed f (S i) t
  end.

(** [df.withColumn(name, c)]: a column of that name is replaced in place,
    otherwise the new column goes last. *)
Definition withColumn (name : string) (c : Column) (df : DataFrame)
    : result DataFrame :=
  tf <- c (columns df) (types df) ;;
  Ok (mkDF (put_column (columns df) name)
        (put_type (columns df) name (fst tf) (types df))
        (map_indexed
           (fun k part =>
              map_indexed
                (fun i r => put_cell (columns df) name (snd tf k i r) r) 0 part)
           0 (partitions df))).

(** ** Steps 4 and 5 *)

Definition patients_df (f : CsvFile) : result DataFrame :=
  withColumn "patient_id" monotonically_increasing_id
    (normalize_columns (read_csv f)).

Definition readmissions_df (f : CsvFile) : result DataFrame :=
  withColumn "age_lower" (cast_integer (regexp_extract (col "age")))
    (normalize_columns (read_csv f)).

(** The identifiers step 4 hands out, in input order, as a function of the
    sizes of the partitions. *)
Fixpoint ids_from (k : nat) (sizes : list nat) : list Z :=
  match sizes with
  | [] => []
  | n :: rest => map (mono_id k) (seq 0 n) ++ ids_from (S k) rest
  end.

Definition patient_ids (f : CsvFile) : list Z :=
  ids_from 0 (map (@List.length Row) (splits f)).

(** What step 5 computes from one cell of the readmission [age] column. *)
Definition lower_cell (v : value) : value :=
  cast_integer_cell (regexp_extract_cell v).

(** ** Steps 6 and 7: aliases and the range join *)

Record Aliased : Type := mkAlias {
  qualifier : string;
  frame : DataFrame
}.

(** [df.alias(q)] *)
Definition alias (q : string) (df : DataFrame) : Aliased := mkAlias q df.

(** The result of a join: both schemas under their qualifiers, and the pairs
    of rows that met the condition. *)
Record JoinedFrame : Type := mkJoined {
  left_alias : string;
  left_columns : list string;
  left_types : list dtype;
  right_alias : string;
  right_columns : list string;
  right_types : list dtype;
  pairs : list (Row * Row)
}.

Inductive side : Type := Left | Right.

(** ["p.age"] is the qualifier ["p"] and the column ["age"]. *)
Fixpoint split_dot (s : string) : option (string * string) :=
  match s with
  | EmptyString => None
  | String c t =>
      if Ascii.eqb c "."%char then Some (EmptyString, t)
      else match split_dot t with
           | Some (a, b) => Some (String c a, b)
           | None => None
           end
  end.

(** Resolution of a qualified reference against the two sides of a join.
    The script qualifies every reference it makes to a joined row. *)
Definition resolve_qualified (lq : string) (lcols : list string)
    (rq : string) (rcols : list string) (qname : string)
    : result (side * nat) :=
  match split_dot qname with
  | Some (q, name) =>
      if String.eqb q lq then i <- resolve lcols name ;; Ok (Left, i)
      else if String.eqb q rq then i <- resolve rcols name ;; Ok (Right, i)
      else Err (Unresolved qname)
  | None => Err (Unresolved qname)
  end.

Definition pick (loc : side * nat) (l r : Row) : value :=
  match fst loc with
  | Left => cell (snd loc) l
  | Right => cell (snd loc) r
  end.

Definition pick_type (loc : side * nat) (ltys rtys : list dtype) : dtype :=
  match fst loc with
  | Left => type_at (snd loc) ltys
  | Right => type_at (snd loc) rtys
  end.

(** A column expression over the two sides of a join: its type and its
    value on a pair of rows. *)
Definition JColumn (A : Type) : Type :=
  string -> list string -> list dtype ->
  string -> list string -> list dtype ->
  result (dtype * (Row -> Row -> A)).

Definition qcol (qname : string) : JColumn value :=
  fun lq lcols ltys rq rcols rtys =>
    loc <- resolve_qualified lq lcols rq rcols qname ;;
    Ok (pick_type loc ltys rtys, pick loc).

(** [c + n] on an integer column: 32-bit addition, null on null.  (The
    script adds to [age_lower], which the cast of step 5 makes an
    [IntegerType] column.) *)
Definition plus_cell (v : value) (n : Z) : value :=
  match int_cell v with
  | Some x => VInt (Cast.wrap32 (x + n))
  | None => VNull
  end.

Definition plus (c : JColumn value) (n : Z) : JColumn value :=
  fun lq lcols ltys rq rcols rtys =>
    tf <- c lq lcols ltys rq rcols rtys ;;
    Ok (fst tf, fun l r => plus_cell (snd tf l r) n).

(** How a cell compares with the integers.  An integral or a finite double
    cell is compared by its value, the integer widened to the cell's type; a
    string cell is cast to an integer first (the engine's cast) and is null
    when the cast fails; Spark orders NaN and positive infinity above every
    number and negative infinity below. *)
Inductive rank : Type :=
| Finite (q : Q)
| Above
| Below.

Definition rank_of {E : Engine} (v : value) : option rank :=
  match v with
  | VInt a => Some (Finite (inject_Z a))
  | VDouble q => Some (Finite q)
  | VStr s =>
      match string_to_int s with
      | Some a => Some (Finite (inject_Z a))
      | None => None
      end
  | VNaN => Some Above
  | VInfinity negative => Some (if negative then Below else Above)
  | _ => None
  end.

(** Comparisons of a cell with an integer bound, and conjunction, in SQL's
    three-valued logic. *)
Definition ge3 {E : Engine} (x bound : value) : option bool :=
  match rank_of x, int_cell bound with
  | Some (Finite q), Some n => Some (Qle_bool (inject_Z n) q)
  | Some Above, Some _ => Some true
  | Some Below, Some _ => Some false
  | _, _ => None
  end.

Definition le3 {E : Engine} (x bound : value) : option bool :=
  match rank_of x, int_cell bound with
  | Some (Finite q), Some n => Some (Qle_bool q (inject_Z n))
  | Some Above, Some _ => Some false
  | Some Below, Some _ => Some true
  | _, _ => None
  end.

Definition and3 (a b : option bool) : option bool :=
  match a, b with
  | Some false, _ => Some false
  | _, Some false => Some false
  | Some true, Some true => Some true
  | _, _ => None
  end.

(** [x.between(lo, hi)] is [x >= lo AND x <= hi]. *)
Definition between_cell {E : Engine} (x lo hi : value) : option bool :=
  and3 (ge3 x lo) (le3 x hi).

(** The types Spark coerces to a number: the numeric types, and the string
    type by a cast.  A boolean, a date or a timestamp is no operand of a
    comparison with an integer, nor of [avg]. *)
Definition coercible (t : dtype) : bool :=
  match t with
  | BooleanType | DateType | TimestampType => false
  | _ => true
  end.

Definition between {E : Engine} (x lo hi : JColumn value)
    : JColumn (option bool) :=
  fun lq lcols ltys rq rcols rtys =>
    tx <- x lq lcols ltys rq rcols rtys ;;
    tlo <- lo lq lcols ltys rq rcols rtys ;;
    thi <- hi lq lcols ltys rq rcols rtys ;;
    if coercible (fst tx)
    then Ok (BooleanType,
             fun l r => between_cell (snd tx l r) (snd tlo l r) (snd thi l r))
    else Err (Mismatch "between").

(** A join keeps a pair only when its condition is true; null is not true. *)
Definition holds (b : option bool) : bool :=
  match b with Some true => true | _ => false end.

(** [p.join(r, on, how="inner")] *)
Definition join_inner (p r : Aliased) (on : JColumn (option bool))
    : result JoinedFrame :=
  tf <- on (qualifier p) (columns (frame p)) (types (frame p))
           (qualifier r) (columns (frame r)) (types (frame r)) ;;
  Ok (mkJoined
        (qualifier p) (columns (frame p)) (types (frame p))
        (qualifier r) (columns (frame r)) (types (frame r))
        (flat_map
           (fun l => map (pair l)
                       (filter (fun x => holds (snd tf l x)) (rows (frame r))))
           (rows (frame p)))).

Definition joined_df {E : Engine} (patients readmissions : DataFrame)
    : result JoinedFrame :=
  let p := alias "p" patients in
  let r := alias "r" readmissions in
  join_inner p r
    (between (qcol "p.age") (qcol "r.age_lower") (plus (qcol "r.age_lower") 9)).

(** ** Step 8: the explicit select list *)

Inductive selection : Type :=
| Col (qname : string)                    (* col("p.name") *)
| As (qname : string) (name : string).    (* col("p.age").alias("age") *)

Definition reference (s : selection) : string :=
  match s with Col q => q | As q _ => q end.

Definition output_name (s : selection) : string :=
  match s with
  | Col q => match split_dot q with Some (_, n) => n | None => q end
  | As _ n => n
  end.

Definition select (items : list selection) (j : JoinedFrame) : result DataFrame :=
  locs <- mapM (fun s => resolve_qualified (left_alias j) (left_columns j)
                           (right_alias j) (right_columns j) (reference s))
               items ;;
  Ok (mkDF (map output_name items)
        (map (fun loc => pick_type loc (left_types j) (right_types j)) locs)
        [map (fun lr => map (fun loc => pick loc (fst lr) (snd lr)) locs)
             (pairs j)]).

Definition final_selection : list selection :=
  [ Col "p.patient_id";
    Col "p.name";
    As "p.age" "age";
    Col "p.gender";
    Col "p.blood_type";
    Col "p.medical_condition";
    Col "p.date_of_admission";
    Col "p.doctor";
    Col "p.hospital";
    Col "p.insurance_provider";
    Col "p.billing_amount";
    Col "p.room_number";
    Col "p.admission_type";
    Col "p.discharge_date";
    Col "p.medication";
    Col "p.test_results";
    Col "r.time_in_hospital";
    Col "r.n_lab_procedures";
    Col "r.n_procedures";
    Col "r.n_medications";
    Col "r.n_outpatient";
    Col "r.n_inpatient";
    Col "r.n_emergency";
    Col "r.medical_specialty";
    Col "r.diag_1";
    Col "r.diag_2";
    Col "r.diag_3";
    Col "r.glucose_test";
    Col "r.a1ctest";
    Col "r.change";
    Col "r.diabetes_med";
    Col "r.readmitted" ].

Definition final_df (j : JoinedFrame) : result DataFrame :=
  select final_selection j.

(** Steps 2 to 7 in the order the script runs them. *)
Definition etl_join {E : Engine} (patients readmissions : CsvFile)
    : result JoinedFrame :=
  p <- patients_df patients ;;
  r <- readmissions_df readmissions ;;
  joined_df p r.

(** Steps 2 to 8. *)
Definition etl_final {E : Engine} (patients readmissions : CsvFile)
    : result DataFrame :=
  j <- etl_join patients readmissions ;;
  final_df j.

(** ** Steps 9 and 10: aggregation *)

Definition row_eq_dec (a b : Row) : {a = b} + {a <> b} :=
  list_eq_dec value_eq_dec a b.

(** [df.select(name, ...)] on an unqualified DataFrame. *)
Definition select_columns (names : list string) (df : DataFrame)
    : result DataFrame :=
  locs <- mapM (resolve (columns df)) names ;;
  Ok (mkDF names (map (fun i => type_at i (types df)) locs)
        [map (fun r => map (fun i => cell i r) locs) (rows df)]).

(** [df.distinct()] *)
Definition distinct (df : DataFrame) : DataFrame :=
  mkDF (columns df) (types df) [nodup row_eq_dec (rows df)].

(** Counting by key, one key at a time, as a hash aggregate does; a null key
    is a group of its own. *)
Fixpoint bump (k : value) (acc : list (value * Z)) : list (value * Z) :=
  match acc with
  | [] => [(k, 1)]
  | (k', n) :: t =>
      if value_eqb k k' then (k', n + 1) :: t else (k', n) :: bump k t
  end.

Definition group_counts (keys : list value) : list (value * Z) :=
  fold_left (fun acc k => bump k acc) keys [].

Record GroupedData : Type := mkGrouped {
  group_key : string;
  key_index : nat;
  grouped : DataFrame
}.

(** [df.groupBy(key)] *)
Definition groupBy (key : string) (df : DataFrame) : result GroupedData :=
  i <- resolve (columns df) key ;; Ok (mkGrouped key i df).

Definition group_keys (g : GroupedData) : list value :=
  map (cell (key_index g)) (rows (grouped g)).

Definition key_type (g : GroupedData) : dtype :=
  type_at (key_index g) (types (grouped g)).

(** [grouped.count()] *)
Definition group_count (g : GroupedData) : DataFrame :=
  mkDF [group_key g; "count"] [key_type g; LongType]
       [map (fun kc => [fst kc; VInt (snd kc)]) (group_counts (group_keys g))].

(** The type of [avg(c)]: a decimal for a decimal column, else a double. *)
Definition avg_type (t : dtype) : dtype :=
  match t with DecimalType => DecimalType | _ => DoubleType end.

(** [grouped.agg(round(avg(c), 2).alias(a))] *)
Definition agg_round_avg {E : Engine} (c a : string) (g : GroupedData)
    : result DataFrame :=
  j <- resolve (columns (grouped g)) c ;;
  if coercible (type_at j (types (grouped g)))
  then
    Ok (mkDF [group_key g; a]
          [key_type g; avg_type (type_at j (types (grouped g)))]
          [map (fun k =>
                  [k; round 2
                        (avg (map (cell j)
                                (filter (fun r => value_eqb (cell (key_index g) r) k)
                                        (rows (grouped g)))))])
               (map fst (group_counts (group_keys g)))])
  else Err (Mismatch "avg").

(** [df.select(round(avg(c), 2).alias(a))] *)
Definition select_round_avg {E : Engine} (c a : string) (df : DataFrame)
    : result DataFrame :=
  j <- resolve (columns df) c ;;
  if coercible (type_at j (types df))
  then Ok (mkDF [a] [avg_type (type_at j (types df))]
             [[[round 2 (avg (map (cell j) (rows df)))]]])
  else Err (Mismatch "avg").

(** Descending order on an integer column, nulls last; rows that tie keep
    their order. *)
Definition desc_before (i : nat) (a b : Row) : bool :=
  match int_cell (cell i a), int_cell (cell i b) with
  | Some x, Some y => y <=? x
  | Some _, None => true
  | None, Some _ => false
  | None, None => true
  end.

Fixpoint insert_desc (i : nat) (a : Row) (l : list Row) : list Row :=
  match l with
  | [] => [a]
  | b :: t => if desc_before i a b then a :: l else b :: insert_desc i a t
  end.

Definition sort_desc (i : nat) (l : list Row) : list Row :=
  fold_right (insert_desc i) [] l.

(** [df.orderBy(col(c).desc())] *)
Definition orderBy_desc (c : string) (df : DataFrame) : result DataFrame :=
  i <- resolve (columns df) c ;;
  Ok (mkDF (columns df) (types df) [sort_desc i (rows df)]).

(** ** The console and the sink *)

Inductive event : Type :=
| Print (args : list value)                      (* print(a, b, ...) *)
| Show (cols : list string) (shown : list Row)   (* df.show(n) *)
| WriteParquet (mode path : string) (df : DataFrame)
| Stop.

(** A run of the script: what it has printed and written so far, and how it
    went on.  An error ends the run and keeps what came before it. *)
Definition io (A : Type) : Type := (list event * result A)%type.

Definition io_bind {A B : Type} (m : io A) (k : A -> io B) : io B :=
  match m with
  | (out, Ok a) => let (out', r) := k a in (out ++ out', r)
  | (out, Err e) => (out, Err e)
  end.

Definition lift {A : Type} (r : result A) : io A := ([], r).
Definition emit (e : event) : io unit := ([e], Ok tt).

Notation "x <~ m ;; k" := (io_bind m (fun x => k))
  (at level 61, m at next level, right associativity).
Notation "m ;;; k" := (io_bind m (fun _ => k))
  (at level 61, right associativity).

Definition nl : string := String (ascii_of_nat 10) EmptyString.

Definition print (args : list value) : io unit := emit (Print args).

(** [df.show(n)]; [truncate] only changes how wide a cell is printed. *)
Definition show (n : nat) (df : DataFrame) : io unit :=
  emit (Show (columns df) (firstn n (rows df))).

(** Step 9. *)
Definition show_sample_and_row_count (final : DataFrame) : io unit :=
  print [VStr (nl ++ "=== Sample Joined Dataset ===")] ;;;
  show 5 final ;;;
  print [VStr (nl ++ "Total rows in joined dataset:"); VInt (count final)] ;;;
  ids <~ lift (select_columns ["patient_id"] final) ;;
  print [VStr "Total unique patients:"; VInt (count (distinct ids))].

(** Step 10. *)
Definition reporting {E : Engine} (final : DataFrame) : io unit :=
  print [VStr (nl ++ "=== Gender Distribution ===")] ;;;
  g <~ lift (groupBy "gender" final) ;;
  show 20 (group_count g) ;;;
  print [VStr (nl ++ "=== Average Age ===")] ;;;
  a <~ lift (select_round_avg "age" "avg_age" final) ;;
  show 20 a ;;;
  print [VStr (nl ++ "=== Top 5 Hospitals by Patient Count ===")] ;;;
  g <~ lift (groupBy "hospital" final) ;;
  s <~ lift (orderBy_desc "count" (group_count g)) ;;
  show 5 s ;;;
  print [VStr (nl ++ "=== Top 5 Doctors by Patient Count ===")] ;;;
  g <~ lift (groupBy "doctor" final) ;;
  s <~ lift (orderBy_desc "count" (group_count g)) ;;
  show 5 s ;;;
  print [VStr (nl ++ "=== Readmission Counts ===")] ;;;
  g <~ lift (groupBy "readmitted" final) ;;
  show 20 (group_count g) ;;;
  print [VStr (nl ++ "=== Average Time in Hospital by Readmission ===")] ;;;
  g <~ lift (groupBy "readmitted" final) ;;
  a <~ lift (agg_round_avg "time_in_hospital" "avg_days" g) ;;
  show 20 a ;;;
  print [VStr (nl ++ "=== Average Billing by Admission Type ===")] ;;;
  g <~ lift (groupBy "admission_type" final) ;;
  a <~ lift (agg_round_avg "billing_amount" "avg_billing" g) ;;
  show 20 a.

(** Step 11. *)
Definition save (final : DataFrame) : io unit :=
  emit (WriteParquet "overwrite" "output/final_healthcare_etl.parquet" final).

(** The whole script. *)
Definition main {E : Engine} (patients readmissions : CsvFile) : io unit :=
  final <~ lift (etl_final patients readmissions) ;;
  show_sample_and_row_count final ;;;
  reporting final ;;;
  save final ;;;
  emit Stop.

(** ** The output schema and the reports as the specification lists them *)

(** The thirty-two fields of the joined output, [patient_id] through
    [readmitted]. *)
Definition final_columns : list string :=
  [ "patient_id"; "name"; "age"; "gender"; "blood_type"; "medical_condition";
    "date_of_admission"; "doctor"; "hospital"; "insurance_provider";
    "billing_amount"; "room_number"; "admission_type"; "discharge_date";
    "medication"; "test_results";
    "time_in_hospital"; "n_lab_procedures"; "n_procedures"; "n_medications";
    "n_outpatient"; "n_inpatient"; "n_emergency"; "medical_specialty";
    "diag_1"; "diag_2"; "diag_3"; "glucose_test"; "a1ctest"; "change";
    "diabetes_med"; "readmitted" ].

(** The source column behind each output field: its side and its name
    there. *)
Definition final_sources : list (side * string) :=
  map (pair Left) (firstn 16 final_columns)
  ++ map (pair Right) (skipn 16 final_columns).

(** The side and the column a select item refers to. *)
Definition source_of (lq rq : string) (s : selection) : option (side * string) :=
  match split_dot (reference s) with
  | Some (q, name) =>
      if String.eqb q lq then Some (Left, name)
      else if String.eqb q rq then Some (Right, name)
      else None
  | None => None
  end.

Definition side_columns (j : JoinedFrame) (sd : side) : list string :=
  match sd with
  | Left => left_columns j
  | Right => right_columns j
  end.

(** An output cell drawn from the place [loc] comes from the source column
    [src]. *)
Definition drawn_from (j : JoinedFrame) (src : side * string)
    (loc : side * nat) : Prop :=
  fst loc = fst src /\
  resolve (side_columns j (fst src)) (snd src) = Ok (snd loc).

(** The count a table of group counts holds for a key, zero when the key
    has no group. *)
Fixpoint count_of (k : value) (acc : list (value * Z)) : Z :=
  match acc with
  | [] => 0
  | (k', n) :: t => if value_eqb k k' then n else count_of k t
  end.

Definition total (acc : list (value * Z)) : Z :=
  fold_right (fun kn s => snd kn + s) 0 acc.

(** What holds of a table of group counts once the keys [seen] have been
    fed in. *)
Record counted (seen : list value) (acc : list (value * Z)) : Prop := {
  counted_keys : forall k, In k (map fst acc) <-> In k seen;
  counted_nodup : NoDup (map fst acc);
  counted_count :
    forall k, count_of k acc = Z.of_nat (count_occ value_eq_dec seen k);
  counted_total : total acc = Z.of_nat (List.length seen)
}.

Definition side_name_eq_dec (a b : side * string) : {a = b} + {a <> b}.
Proof. decide equality; [apply string_dec | decide equality]. Defined.

(** The kinds of grouped report of the aggregation engine. *)
Inductive aggregation : Type :=
| CountBy (key : string)
| TopCountBy (k : nat) (key : string)
| Mean (field name : string)
| MeanBy (key field name : string).

Definition aggregate {E : Engine} (a : aggregation) (df : DataFrame)
    : result DataFrame :=
  match a with
  | CountBy key => g <- groupBy key df ;; Ok (group_count g)
  | TopCountBy _ key =>
      g <- groupBy key df ;; orderBy_desc "count" (group_count g)
  | Mean field name => select_round_avg field name df
  | MeanBy key field name => g <- groupBy key df ;; agg_round_avg field name g
  end.

(** Rows a report shows: the [k] of a top-[k] report, otherwise the default
    of [show()]. *)
Definition shown_rows (a : aggregation) : nat :=
  match a with
  | TopCountBy k _ => k
  | _ => 20%nat
  end.

(** The seven report categories, in the order of the specification. *)
Definition report_categories : list (string * aggregation) :=
  [ ("Gender Distribution", CountBy "gender");
    ("Average Age", Mean "age" "avg_age");
    ("Top 5 Hospitals by Patient Count", TopCountBy 5 "hospital");
    ("Top 5 Doctors by Patient Count", TopCountBy 5 "doctor");
    ("Readmission Counts", CountBy "readmitted");
    ("Average Time in Hospital by Readmission",
     MeanBy "readmitted" "time_in_hospital" "avg_days");
    ("Average Billing by Admission Type",
     MeanBy "admission_type" "billing_amount" "avg_billing") ].

Definition title_line (title : string) : event :=
  Print [VStr (nl ++ "=== " ++ title ++ " ===")%string].

(** What one report puts on the console. *)
Definition report_events (category : string * aggregation) (table : DataFrame)
    : list event :=
  [ title_line (fst category);
    Show (columns table) (firstn (shown_rows (snd category)) (rows table)) ].

(** What the table of a report holds, said without the functions that
    compute it and without an order of the groups.  A count table has one row
    per value of the key column, with the number of rows that hold it. *)
Definition count_table (key : string) (i : nat) (df t : DataFrame) : Prop :=
  columns t = [key; "count"] /\
  NoDup (map (cell 0) (rows t)) /\
  forall r,
    In r (rows t) <->
    exists k,
      In k (map (cell i) (rows df)) /\
      r = [k; VInt (Z.of_nat (count_occ value_eq_dec (map (cell i) (rows df)) k))].

(** The rows of [df] that hold [k] in column [i]. *)
Definition group_of (i : nat) (k : value) (df : DataFrame) : list Row :=
  filter (fun r => value_eqb (cell i r) k) (rows df).

(** A table of means has one row per value of the key column, with the
    rounded mean of the field over the rows that hold it. *)
Definition mean_table {E : Engine} (key name : string) (i j : nat)
    (df t : DataFrame) : Prop :=
  columns t = [key; name] /\
  NoDup (map (cell 0) (rows t)) /\
  forall r,
    In r (rows t) <->
    exists k,
      In k (map (cell i) (rows df)) /\
      r = [k; round 2 (avg (map (cell j) (group_of i k df)))].

Definition describes {E : Engine} (a : aggregation) (df t : DataFrame) : Prop :=
  match a with
  | CountBy key =>
      exists i, resolve (columns df) key = Ok i /\ count_table key i df t
  | TopCountBy _ key =>
      exists i,
        resolve (columns df) key = Ok i /\ count_table key i df t /\
        StronglySorted (fun a b => desc_before 1 a b = true) (rows t)
  | Mean field name =>
      exists j,
        resolve (columns df) field = Ok j /\
        coercible (type_at j (types df)) = true /\
        columns t = [name] /\
        rows t = [[round 2 (avg (map (cell j) (rows df)))]]
  | MeanBy key field name =>
      exists i j,
        resolve (columns df) key = Ok i /\
        resolve (columns df) field = Ok j /\
        coercible (type_at j (types df)) = true /\
        mean_table key name i j df t
  end.

(** The console of step 9 for the joined output [df], [unique] being the
    number it prints as unique patients. *)
Definition sample_events (df : DataFrame) (unique : Z) : list event :=
  [ Print [VStr (nl ++ "=== Sample Joined Dataset ===")];
    Show (columns df) (firstn 5 (rows df));
    Print [VStr (nl ++ "Total rows in joined dataset:"); VInt (count df)];
    Print [VStr "Total unique patients:"; VInt unique] ].

(** ** The join predicate as the specification words it *)

(** The age a cell of the patient [age] column stands for: the number of an
    integral or a finite double cell, and the integer a string cell casts
    to.  A null, a string that is no number, NaN and the infinities stand
    for no age. *)
Definition age_value {E : Engine} (v : value) : option Q :=
  match v with
  | VInt a => Some (inject_Z a)
  | VDouble q => Some q
  | VStr s =>
      match string_to_int s with
      | Some a => Some (inject_Z a)
      | None => None
      end
  | _ => None
  end.


(** The pairs a nested loop over both sides keeps, given where the patient's
    [age] and the readmission's [age_lower] sit in their rows. *)
Definition matches {E : Engine} (ia il : nat) (l x : Row) : bool :=
  holds (between_cell (cell ia l) (cell il x) (plus_cell (cell il x) 9)).

Definition nested_loop {E : Engine} (ia il : nat) (ps rs : list Row)
    : list (Row * Row) :=
  flat_map (fun l => map (pair l) (filter (matches ia il l) rs)) ps.

Definition result_map {A B : Type} (f : A -> B) (m : result A) : result B :=
  match m with
  | Ok a => Ok (f a)
  | Err e => Err e
  end.

(** A readmission row after step 5: the source row with its derived
    [age_lower] written into it. *)
Definition with_lower (h : list string) (iage : nat) (r : Row) : Row :=
  put_cell (map normalize h) "age_lower" (lower_cell (cell iage r)) r.



(** ** Sample inputs *)

(** An engine for the sample runs.  Its cast of a string to an integer is
    the one of Spark 3.x with ANSI off: blanks and control characters around
    the text are dropped, a sign is read, a fraction is cut off, and text
    that is no number, or a number beyond 32 bits, is null.  Its means are
    exact: they are taken over the integer and the finite double cells, which
    is all the samples average. *)
Definition is_blank (c : ascii) : bool :=
  ((N_of_ascii c <=? 32) || (N_of_ascii c =? 127))%N.

Fixpoint drop_blanks (l : list ascii) : list ascii :=
  match l with
  | [] => []
  | c :: t => if is_blank c then drop_blanks t else l
  end.

Definition trim (l : list ascii) : list ascii :=
  rev (drop_blanks (rev (drop_blanks l))).

(** The digits up to the decimal point or the end, and what follows the
    point. *)
Fixpoint integral (acc : Z) (l : list ascii) : option (Z * list ascii) :=
  match l with
  | [] => Some (acc, [])
  | c :: t =>
      if Ascii.eqb c "."%char then Some (acc, t)
      else if Regex.is_digit c
           then integral (acc * 10 + Cast.digit_of c) t
           else None
  end.

Definition text_to_int (s : string) : option Z :=
  match trim (list_ascii_of_string s) with
  | [] => None
  | c :: t =>
      let negative := Ascii.eqb c "-"%char in
      let body := if negative || Ascii.eqb c "+"%char then t else c :: t in
      match body with
      | [] => None
      | _ =>
          match integral 0 body with
          | Some (m, fraction) =>
              if forallb Regex.is_digit fraction
              then if negative
                   then if m <=? 2147483648 then Some (- m) else None
                   else if m <=? Cast.int_max then Some m else None
              else None
          | None => None
          end
      end
  end.

Definition numeric (v : value) : option Q :=
  match v with
  | VInt n => Some (inject_Z n)
  | VDouble q => Some q
  | _ => None
  end.

Definition numerics (cells : list value) : list Q :=
  flat_map (fun v => match numeric v with Some q => [q] | None => [] end) cells.

Definition exact_avg (cells : list value) : value :=
  match numerics cells with
  | [] => VNull
  | xs => VDouble (Qred (fold_right Qplus 0%Q xs
                         / inject_Z (Z.of_nat (List.length xs))))
  end.

(** Rounding half away from zero. *)
Definition round_half_up (scale : nat) (q : Q) : Q :=
  let m := (10 ^ Z.of_nat scale)%Z in
  let scaled := (q * inject_Z m)%Q in
  if Qle_bool 0 scaled
  then Qmake (Qfloor (scaled + (1 # 2))) (Z.to_pos m)
  else Qmake (- Qfloor ((- scaled) + (1 # 2))) (Z.to_pos m).

Definition exact_round (scale : nat) (v : value) : value :=
  match v with
  | VDouble q => VDouble (Qred (round_half_up scale q))
  | _ => v
  end.

Definition sample_engine : Engine :=
  {| string_to_int := text_to_int;
     avg := exact_avg;
     round := exact_round |}.

(** A patient source with the single column [Age] and one record. *)
Definition patient_aged (a : Z) : CsvFile := mkCsv ["Age"] [[[VInt a]]].

(** A readmission source with the single column [age] and one record. *)
Definition bucket (label : string) : CsvFile := mkCsv ["age"] [[[VStr label]]].

(** Two sources with the columns the script selects.  The second and third
    readmission records hold a label that does not parse and a null. *)
Definition sample_patients : CsvFile :=
  mkCsv
    [ "Name"; "Age"; "Gender"; "Blood Type"; "Medical Condition";
      "Date of Admission"; "Doctor"; "Hospital"; "Insurance Provider";
      "Billing Amount"; "Room Number"; "Admission Type"; "Discharge Date";
      "Medication"; "Test Results" ]
    [ [ [ VStr "Bobby Jackson"; VInt 30; VStr "Male"; VStr "B-"; VStr "Cancer";
          VDate 19753; VStr "Matthew Smith"; VStr "Sons and Miller";
          VStr "Blue Cross"; VDouble (1885628 # 100); VInt 328; VStr "Urgent";
          VDate 19755; VStr "Paracetamol"; VStr "Normal" ] ];
      [ [ VStr "Leslie Terry"; VInt 75; VStr "Female"; VStr "A+";
          VStr "Obesity"; VDate 18128; VStr "Samantha Davies";
          VStr "Kim Inc"; VStr "Medicare"; VDouble (3364333 # 100); VInt 265;
          VStr "Emergency"; VDate 18134; VStr "Ibuprofen";
          VStr "Inconclusive" ] ] ].

Definition sample_readmissions : CsvFile :=
  mkCsv
    [ "age"; "time_in_hospital"; "n_lab_procedures"; "n_procedures";
      "n_medications"; "n_outpatient"; "n_inpatient"; "n_emergency";
      "medical_specialty"; "diag_1"; "diag_2"; "diag_3"; "glucose_test";
      "A1Ctest"; "change"; "diabetes_med"; "readmitted" ]
    [ [ [ VStr "[70-80)"; VInt 8; VInt 72; VInt 1; VInt 18; VInt 2; VInt 0;
          VInt 0; VStr "Missing"; VStr "Circulatory"; VStr "Respiratory";
          VStr "Other"; VStr "no"; VStr "no"; VStr "no"; VStr "yes";
          VStr "no" ];
        [ VStr "invalid"; VInt 3; VInt 34; VInt 2; VInt 13; VInt 0; VInt 0;
          VInt 0; VStr "Other"; VStr "Other"; VStr "Other"; VStr "Other";
          VStr "no"; VStr "no"; VStr "no"; VStr "yes"; VStr "no" ];
        [ VNull; VInt 5; VInt 45; VInt 0; VInt 18; VInt 0; VInt 0; VInt 0;
          VStr "Missing"; VStr "Circulatory"; VStr "Circulatory";
          VStr "Circulatory"; VStr "no"; VStr "no"; VStr "yes"; VStr "yes";
          VStr "yes" ];
        [ VStr "[30-40)"; VInt 2; VInt 36; VInt 0; VInt 12; VInt 1; VInt 0;
          VInt 1; VStr "Missing"; VStr "Other"; VStr "Diabetes"; VStr "Other";
          VStr "no"; VStr "high"; VStr "yes"; VStr "yes"; VStr "yes" ];
        [ VStr "[70-80)"; VInt 4; VInt 51; VInt 0; VInt 20; VInt 0; VInt 0;
          VInt 0; VStr "InternalMedicine"; VStr "Other"; VStr "Other";
          VStr "Other"; VStr "no"; VStr "normal"; VStr "no"; VStr "no";
          VStr "yes" ] ] ].

(** The joined output of the two samples. *)
Definition sample_final : DataFrame :=
  Eval vm_compute in
    match etl_final (E := sample_engine) sample_patients sample_readmissions with
    | Ok df => df
    | Err _ => mkDF [] [] []
    end.

(** The patient sample with every age noted as a date: schema inference
    types the column as a date column. *)
Definition dated_patients : CsvFile :=
  mkCsv (header sample_patients)
    (map (map (fun r => match r with
                        | name :: _ :: rest => name :: VDate 19753 :: rest
                        | _ => r
                        end))
         (splits sample_patients)).


(** ** Notions used to state the behaviour of the remaining steps *)

(** Every row has one cell per column. *)
Definition conforms (df : DataFrame) : Prop :=
  Forall (fun r => List.length r = List.length (columns df)) (rows df).

(** How often a header normalises to [name]. *)
Definition canonical_count (h : list string) (name : string) : nat :=
  count_occ string_dec (map normalize h) name.

(** The sum of an integer column. *)
Definition column_total (i : nat) (df : DataFrame) : Z :=
  fold_right (fun r s => match int_cell (cell i r) with
                         | Some n => n + s
                         | None => s
                         end) 0 (rows df).

(** The events of the console, [print] and [show]; the write and the stop
    are not among them. *)
Definition console (e : event) : Prop :=
  match e with
  | Print _ | Show _ _ => True
  | _ => False
  end.

(** A patient row that joins with at least one readmission row. *)
Definition matched {E : Engine} (ia il : nat) (rs : list Row) (l : Row) : bool :=
  existsb (matches ia il l) rs.
(** * Properties *)

(** ** The matcher agrees with the meaning of the pattern *)

Module RegexFacts.
Import Regex.
Local Open Scope string_scope.

Lemma span_digits_spec (s : string) :
  s = fst (span_digits s) ++ snd (span_digits s) /\
  all_digits (fst (span_digits s)) = true /\
  starts_nondigit (snd (span_digits s)) = true.
Proof.
  induction s as [|c t IH]; simpl.
  - repeat split.
  - destruct (is_digit c) eqn:Hc.
    + destruct (span_digits t) as [d r]; simpl in *.
      destruct IH as (-> & Hd & Hr); rewrite Hc, Hd; auto.
    + simpl. rewrite Hc. auto.
Qed.

Lemma span_digits_app (d r : string) :
  all_digits d = true -> starts_nondigit r = true ->
  span_digits (d ++ r) = (d, r).
Proof.
  induction d as [|c d IH]; simpl; intros Hd Hr.
  - destruct r as [|c r]; simpl in *; [reflexivity|].
    apply negb_true_iff in Hr. now rewrite Hr.
  - apply andb_true_iff in Hd as [Hc Hd].
    now rewrite Hc, IH.
Qed.

(** An attempt at the head succeeds exactly on [[d-u)...]. *)
Lemma match_here_Some (s d : string) :
  match_here s = Some d <->
  exists u post, s = "[" ++ d ++ "-" ++ u ++ ")" ++ post /\
                 digit_run d /\ digit_run u.
Proof.
  split.
  - unfold match_here.
    destruct s as [|c t]; [discriminate|].
    destruct (Ascii.eqb_spec c "["%char) as [->|Hne].
    2:{ intros H; exfalso.
        destruct c as [[] [] [] [] [] [] [] []]; try discriminate H;
          now apply Hne. }
    pose proof (span_digits_spec t) as (Ht & Hd & _).
    destruct (span_digits t) as [d1 r1]; simpl in *.
    destruct d1 as [|c1 d1]; [discriminate|].
    destruct r1 as [|c2 t2]; [discriminate|].
    destruct (Ascii.eqb_spec c2 "-"%char) as [->|Hne].
    2:{ intros H; exfalso.
        destruct c2 as [[] [] [] [] [] [] [] []]; try discriminate H;
          now apply Hne. }
    pose proof (span_digits_spec t2) as (Ht2 & Hu & _).
    destruct (span_digits t2) as [u1 r2]; simpl in *.
    destruct u1 as [|c3 u1]; [discriminate|].
    destruct r2 as [|c4 t4]; [discriminate|].
    destruct (Ascii.eqb_spec c4 ")"%char) as [->|Hne].
    2:{ intros H; exfalso.
        destruct c4 as [[] [] [] [] [] [] [] []]; try discriminate H;
          now apply Hne. }
    intros H; injection H as <-.
    exists (String c3 u1), t4. subst t t2. simpl.
    repeat split; try discriminate; auto.
  - intros (u & post & -> & [Hd0 Hd] & [Hu0 Hu]).
    change ("[" ++ d ++ "-" ++ u ++ ")" ++ post)
      with (String "[" (d ++ String "-" (u ++ String ")" post))).
    unfold match_here.
    rewrite (span_digits_app d (String "-" (u ++ String ")" post)) Hd eq_refl).
    rewrite (span_digits_app u (String ")" post) Hu eq_refl).
    destruct d as [|c d]; [easy|].
    destruct u as [|c' u]; [easy|]. reflexivity.
Qed.

Lemma occurs_at_0 (s d : string) :
  occurs_at s 0 d <-> match_here s = Some d.
Proof.
  rewrite match_here_Some. split.
  - intros (pre & u & post & Hl & -> & Hd & Hu).
    destruct pre; [|discriminate]. now exists u, post.
  - intros (u & post & -> & Hd & Hu). now exists "", u, post.
Qed.

Lemma occurs_at_S (c : ascii) (t : string) (n : nat) (d : string) :
  occurs_at (String c t) (S n) d <-> occurs_at t n d.
Proof.
  split.
  - intros (pre & u & post & Hl & He & Hd & Hu).
    destruct pre as [|c' pre]; [discriminate|].
    simpl in Hl, He. injection He as <- ->.
    exists pre, u, post. repeat split; auto; try apply Hd; try apply Hu.
  - intros (pre & u & post & Hl & -> & Hd & Hu).
    exists (String c pre), u, post. simpl. now rewrite Hl.
Qed.

Lemma occurs_at_empty (n : nat) (d : string) : ~ occurs_at "" n d.
Proof.
  intros (pre & u & post & _ & He & _).
  destruct pre; discriminate.
Qed.

Lemma find_None (s : string) : find s = None -> ~ contains_bucket s.
Proof.
  induction s as [|c t IH]; cbn [find].
  - intros _ (n & d & H). now apply occurs_at_empty in H.
  - destruct (match_here (String c t)) eqn:Hm; [discriminate|].
    intros Hf (n & d & H). destruct n as [|n].
    + apply occurs_at_0 in H. congruence.
    + apply occurs_at_S in H. apply (IH Hf). now exists n, d.
Qed.

Lemma find_Some (s d : string) : find s = Some d -> first_bucket s d.
Proof.
  revert d. induction s as [|c t IH]; intros d.
  - discriminate.
  - cbn [find]. destruct (match_here (String c t)) eqn:Hm.
    + intros H; injection H as ->. exists 0%nat. split.
      * now apply occurs_at_0.
      * intros; lia.
    + intros Hf. destruct (IH _ Hf) as (n & Ho & Hmin).
      exists (S n). split; [now apply occurs_at_S|].
      intros m d' H. destruct m as [|m].
      * apply occurs_at_0 in H. congruence.
      * apply occurs_at_S in H. apply Hmin in H. lia.
Qed.

Lemma first_bucket_find (s d : string) : first_bucket s d -> find s = Some d.
Proof.
  intros (n & Ho & Hmin).
  destruct (find s) as [d'|] eqn:Hf.
  - apply find_Some in Hf as (n' & Ho' & Hmin').
    pose proof (Hmin _ _ Ho') as H1. pose proof (Hmin' _ _ Ho) as H2.
    assert (n' = n) as -> by lia. clear H1 H2 Hmin Hmin'.
    revert s Ho Ho'. induction n as [|n IH]; intros s Ho Ho'.
    + apply occurs_at_0 in Ho, Ho'. congruence.
    + destruct s as [|c t]; [now apply occurs_at_empty in Ho|].
      apply occurs_at_S in Ho, Ho'. now apply (IH t).
  - exfalso. apply (find_None _ Hf). now exists n, d.
Qed.

Lemma find_shape (s d : string) : find s = Some d -> digit_run d.
Proof.
  intros H. apply find_Some in H as (n & (pre & u & post & _ & _ & Hd & _) & _).
  exact Hd.
Qed.

(** The only strings that reach the cast. *)
Lemma regexp_extract_shape (s : string) :
  regexp_extract s = "" \/ digit_run (regexp_extract s).
Proof.
  unfold regexp_extract. destruct (find s) eqn:Hf; [right|now left].
  now apply find_shape in Hf.
Qed.

End RegexFacts.

(** ** The interval parser *)

Module ParserFacts.
Import Regex.

Lemma cast_integer_digit_run (d : string) :
  digit_run d ->
  Cast.cast_integer d =
  if Cast.digits_value d <=? Cast.int_max
  then Some (Cast.digits_value d) else None.
Proof.
  intros [Hne Hd]. unfold Cast.cast_integer.
  destruct d as [|c d]; [easy|]. now rewrite Hd.
Qed.

Lemma age_lower_find_Some (label d : string) :
  find label = Some d ->
  age_lower label =
  if Cast.digits_value d <=? Cast.int_max
  then Some (Cast.digits_value d) else None.
Proof.
  intros Hf. unfold age_lower, regexp_extract. rewrite Hf.
  apply cast_integer_digit_run. now apply RegexFacts.find_shape in Hf.
Qed.

Lemma age_lower_find_None (label : string) :
  find label = None -> age_lower label = None.
Proof.
  intros Hf. unfold age_lower, regexp_extract. now rewrite Hf.
Qed.

Lemma age_lower_range (label : string) (n : Z) :
  age_lower label = Some n -> n <= Cast.int_max.
Proof.
  destruct (find label) as [d|] eqn:Hf.
  - rewrite (age_lower_find_Some _ _ Hf).
    destruct (Z.leb_spec (Cast.digits_value d) Cast.int_max) as [Hle|Hgt];
      [|discriminate].
    intros Heq; injection Heq as <-. exact Hle.
  - now rewrite (age_lower_find_None _ Hf).
Qed.

End ParserFacts.

(** C2, as the specification words it, leaves out one outcome: a label that holds
    the pattern with a lower bound beyond the 32-bit range parses to null,
    which is neither the captured integer nor the null of a label that does
    not match. *)
Lemma age_lower_null_on_match :
  Regex.contains_bucket "[99999999999-5)" /\
  age_lower "[99999999999-5)" = None /\
  ~ (forall s,
        (exists d, Regex.first_bucket s d /\
                   age_lower s = Some (Cast.digits_value d)) \/
        (~ Regex.contains_bucket s /\ age_lower s = None)).
Proof.
  assert (H : Regex.first_bucket "[99999999999-5)" "99999999999")
    by (apply RegexFacts.find_Some; reflexivity).
  assert (Hc : Regex.contains_bucket "[99999999999-5)").
  { destruct H as (n & Ho & _). now exists n, "99999999999"%string. }
  split; [exact Hc|]. split; [reflexivity|].
  intros Hall. destruct (Hall "[99999999999-5)"%string) as [(d & _ & Hd)|[Hn _]].
  - discriminate Hd.
  - now apply Hn.
Qed.

(** C2, amended.  The interval parser is total: on every label it yields the
    integer captured by the first occurrence of [[digits-digits)] when there
    is one and the integer is at most 2147483647, and null otherwise, that
    is when the captured integer does not fit 32 bits or when the label holds
    no such occurrence.  Whatever it returns was captured from the label: a
    label that does not match never yields a default zero.  (No outcome is an
    exception: a cast that fails is null.) *)
Theorem age_lower_total (label : string) :
  ((exists d, Regex.first_bucket label d /\
              Cast.digits_value d <= Cast.int_max /\
              age_lower label = Some (Cast.digits_value d)) \/
   (exists d, Regex.first_bucket label d /\
              Cast.int_max < Cast.digits_value d /\
              age_lower label = None) \/
   (~ Regex.contains_bucket label /\ age_lower label = None)) /\
  (forall n, age_lower label = Some n ->
             exists d, Regex.first_bucket label d /\ n = Cast.digits_value d).
Proof.
  destruct (Regex.find label) as [d|] eqn:Hf.
  - pose proof (RegexFacts.find_Some _ _ Hf) as Hfirst.
    rewrite (ParserFacts.age_lower_find_Some _ _ Hf).
    destruct (Z.leb_spec (Cast.digits_value d) Cast.int_max) as [Hle|Hgt].
    + split; [left; now exists d|].
      intros n [= <-]. now exists d.
    + split; [right; left; now exists d|]. discriminate.
  - rewrite (ParserFacts.age_lower_find_None _ Hf).
    split; [|discriminate]. right; right. split; [|reflexivity].
    now apply RegexFacts.find_None.
Qed.

(** C9, as the specification words it, fails: a label that holds the pattern but
    whose lower bound does not fit a 32-bit integer parses to null. *)
Lemma unanchored_extraction_overflow :
  Regex.first_bucket "[2147483648-2147483658)" "2147483648" /\
  age_lower "[2147483648-2147483658)" = None /\
  ~ (forall s d, Regex.first_bucket s d ->
                 age_lower s = Some (Cast.digits_value d)).
Proof.
  assert (H : Regex.first_bucket "[2147483648-2147483658)" "2147483648")
    by (apply RegexFacts.find_Some; reflexivity).
  split; [exact H|]. split; [reflexivity|].
  intros Hall. specialize (Hall _ _ H). discriminate Hall.
Qed.

(** C9, amended.  The match is an unanchored substring extraction: whenever
    the label holds [[digits-digits)] anywhere, it has a first such
    occurrence, whose lower bound is unique; the parser returns that bound
    provided it is at most 2147483647, and a larger captured bound yields
    null. *)
Theorem unanchored_extraction (s : string) :
  Regex.contains_bucket s ->
  exists d,
    Regex.first_bucket s d /\
    (forall d', Regex.first_bucket s d' -> d' = d) /\
    (Cast.digits_value d <= Cast.int_max ->
     age_lower s = Some (Cast.digits_value d)) /\
    (Cast.int_max < Cast.digits_value d -> age_lower s = None).
Proof.
  intros Hc.
  destruct (Regex.find s) as [d|] eqn:Hf;
    [|now apply RegexFacts.find_None in Hf].
  exists d. split; [now apply RegexFacts.find_Some|]. split.
  { intros d' Hd'. apply RegexFacts.first_bucket_find in Hd'. congruence. }
  rewrite (ParserFacts.age_lower_find_Some _ _ Hf).
  split; intros Hv.
  - apply Z.leb_le in Hv. now rewrite Hv.
  - apply Z.leb_gt in Hv. now rewrite Hv.
Qed.

Lemma unanchored_extraction_witness :
  exists d,
    Regex.first_bucket "age: [20-30) years, then [40-50)" d /\
    age_lower "age: [20-30) years, then [40-50)" = Some 20.
Proof.
  assert (Hf : Regex.first_bucket "age: [20-30) years, then [40-50)" "20")
    by (apply RegexFacts.find_Some; reflexivity).
  destruct (unanchored_extraction "age: [20-30) years, then [40-50)")
    as (d & Hd & Huniq & Hfit & _).
  - destruct Hf as (n & Ho & _). now exists n, "20"%string.
  - exists d. split; [exact Hd|].
    rewrite <- (Huniq _ Hf) in Hfit. apply Hfit. vm_compute. discriminate.
Defined.

(** ** Schema resolution and [withColumn] *)

Module FrameFacts.

Lemma positions_bounds (name : string) (cols : list string) (i j : nat) :
  In j (positions name cols i) ->
  (i <= j < i + List.length cols)%nat /\ nth_error cols (j - i) = Some name.
Proof.
  revert i. induction cols as [|c cs IH]; intros i; simpl; [easy|].
  destruct (String.eqb_spec c name) as [->|Hne].
  - intros [<-|Hin].
    + split; [lia|]. now rewrite Nat.sub_diag.
    + apply IH in Hin as [Hb Hn]. split; [lia|].
      replace (j - i)%nat with (S (j - S i)) by lia. exact Hn.
  - intros Hin. apply IH in Hin as [Hb Hn]. split; [lia|].
    replace (j - i)%nat with (S (j - S i)) by lia. exact Hn.
Qed.

Lemma positions_complete (name : string) (cols : list string) (i k : nat) :
  nth_error cols k = Some name -> In (i + k)%nat (positions name cols i).
Proof.
  revert i k. induction cols as [|c cs IH]; intros i k; simpl.
  - destruct k; discriminate.
  - destruct k as [|k]; simpl.
    + intros [= ->]. rewrite String.eqb_refl. left. lia.
    + intros Hk. specialize (IH (S i) k Hk).
      replace (i + S k)%nat with (S i + k)%nat by lia.
      destruct (String.eqb c name); [now right|assumption].
Qed.

Lemma resolve_Ok (cols : list string) (name : string) (i : nat) :
  resolve cols name = Ok i ->
  nth_error cols i = Some name /\
  forall k, nth_error cols k = Some name -> k = i.
Proof.
  unfold resolve. destruct (positions name cols 0) as [|j [|j' l]] eqn:Hp;
    try discriminate.
  intros [= ->]. split.
  - assert (Hin : In i (positions name cols 0)) by (rewrite Hp; now left).
    apply positions_bounds in Hin as [_ Hn]. now rewrite Nat.sub_0_r in Hn.
  - intros k Hk. apply (positions_complete name cols 0) in Hk.
    rewrite Hp in Hk. simpl in Hk. destruct Hk as [Hk|[]]. lia.
Qed.

Lemma replace_cells_length (cols : list string) (name : string) (v : value)
    (r : Row) :
  List.length (replace_cells cols name v r) = List.length r.
Proof.
  revert r. induction cols as [|c cs IH]; intros [|x xs]; simpl; auto.
Qed.

Lemma cell_replace_cells (cols : list string) (name : string) (v : value)
    (r : Row) (i : nat) :
  nth_error cols i = Some name -> (i < List.length r)%nat ->
  cell i (replace_cells cols name v r) = v.
Proof.
  unfold cell. revert r i. induction cols as [|c cs IH]; intros r i.
  - destruct i; discriminate.
  - destruct r as [|x xs]; simpl; [lia|].
    destruct i as [|i]; simpl.
    + intros [= ->] _. now rewrite String.eqb_refl.
    + intros Hn Hl. apply IH; [assumption|lia].
Qed.

(** On a row with one cell per column, the cell that [withColumn] writes is
    the one a reference to the column reads back. *)
Lemma cell_put_cell (cols : list string) (name : string) (v : value)
    (r : Row) (i : nat) :
  List.length r = List.length cols ->
  resolve (put_column cols name) name = Ok i ->
  cell i (put_cell cols name v r) = v.
Proof.
  intros Hlen Hres. apply resolve_Ok in Hres as [Hn Huniq].
  unfold put_column, put_cell in *.
  destruct (has_column name cols) eqn:Hhas.
  - apply cell_replace_cells; [assumption|].
    rewrite Hlen. apply nth_error_Some. congruence.
  - assert (Hi : i = List.length cols).
    { symmetry. apply Huniq. rewrite nth_error_app2 by lia.
      now rewrite Nat.sub_diag. }
    subst i. unfold cell. rewrite <- Hlen, app_nth2 by lia.
    now rewrite Nat.sub_diag.
Qed.

Lemma put_cell_length (cols : list string) (name : string) (v : value)
    (r : Row) :
  List.length r = List.length cols ->
  List.length (put_cell cols name v r) = List.length (put_column cols name).
Proof.
  intros Hlen. unfold put_cell, put_column.
  destruct (has_column name cols).
  - now rewrite replace_cells_length.
  - rewrite !length_app. simpl. lia.
Qed.

(** A cell of another column is left as it was. *)
Lemma cell_put_cell_other (cols : list string) (name other : string)
    (v : value) (r : Row) (i j : nat) :
  List.length r = List.length cols ->
  other <> name ->
  resolve (put_column cols name) other = Ok i ->
  resolve cols other = Ok j ->
  cell i (put_cell cols name v r) = cell j r.
Proof.
  intros Hlen Hne Hi Hj.
  apply resolve_Ok in Hi as [Hi _]. apply resolve_Ok in Hj as [Hj Huj].
  unfold put_column, put_cell in *.
  assert (Hij : i = j).
  { apply Huj. destruct (has_column name cols); [assumption|].
    assert (i < List.length cols \/ i = List.length cols)%nat as [Hlt| ->].
    { assert (i < List.length (cols ++ [name]))%nat
        by (apply nth_error_Some; congruence).
      rewrite length_app in H. simpl in H. lia. }
    - now rewrite nth_error_app1 in Hi by assumption.
    - rewrite nth_error_app2, Nat.sub_diag in Hi by lia.
      simpl in Hi. congruence. }
  subst j. destruct (has_column name cols).
  - clear Huj Hi. unfold cell. revert r i Hlen Hj.
    induction cols as [|c cs IH]; intros r i Hlen Hj.
    + destruct i; discriminate.
    + destruct r as [|x xs]; [reflexivity|]. simpl.
      destruct i as [|i]; simpl in *.
      * injection Hj as ->.
        destruct (String.eqb_spec other name); [contradiction|reflexivity].
      * apply IH; [lia|assumption].
  - unfold cell. apply app_nth1. rewrite Hlen. apply nth_error_Some. congruence.
Qed.

Lemma fit_length (n : nat) (r : Row) : List.length (fit n r) = n.
Proof.
  unfold fit. rewrite length_firstn, length_app, repeat_length. lia.
Qed.

Lemma map_indexed_combine {A B : Type} (f : nat -> A -> B) (i : nat)
    (l : list A) :
  map_indexed f i l =
  map (fun ia => f (fst ia) (snd ia)) (combine (seq i (List.length l)) l).
Proof.
  revert i. induction l as [|a l IH]; intros i; simpl; [reflexivity|].
  now rewrite IH.
Qed.

Lemma has_column_In (name : string) (cols : list string) :
  has_column name cols = true <-> In name cols.
Proof.
  unfold has_column. rewrite existsb_exists. split.
  - intros (c & Hin & He). apply String.eqb_eq in He. now subst c.
  - intros Hin. exists name. split; [assumption|apply String.eqb_refl].
Qed.


(** Wherever the schema after [withColumn] holds the name, the row holds
    the cell that was written. *)
Lemma cell_put_cell_at (cols : list string) (name : string) (v : value)
    (r : Row) (i : nat) :
  List.length r = List.length cols ->
  nth_error (put_column cols name) i = Some name ->
  cell i (put_cell cols name v r) = v.
Proof.
  intros Hlen Hn. unfold put_column, put_cell in *.
  destruct (has_column name cols) eqn:Hhas.
  - apply cell_replace_cells; [assumption|].
    rewrite Hlen. apply nth_error_Some. congruence.
  - assert (Hi : i = List.length cols).
    { assert (i < List.length cols \/ i = List.length cols)%nat as [Hlt|He].
      { assert (Hb : (i < List.length (cols ++ [name]))%nat)
          by (apply nth_error_Some; congruence).
        rewrite length_app in Hb. simpl in Hb. lia. }
      - rewrite nth_error_app1 in Hn by assumption.
        apply nth_error_In, has_column_In in Hn. congruence.
      - exact He. }
    subst i. unfold cell. rewrite <- Hlen, app_nth2 by lia.
    now rewrite Nat.sub_diag.
Qed.

End FrameFacts.

(** ** Identifier assignment *)

Module IdFacts.

Lemma wrap64_small (z : Z) :
  - 9223372036854775808 <= z < 9223372036854775808 -> wrap64 z = z.
Proof.
  intros Hz. unfold wrap64. rewrite Z.mod_small; lia.
Qed.

Lemma mono_id_exact (k i : nat) :
  Z.of_nat k < 2 ^ 30 -> Z.of_nat i < 2 ^ 33 ->
  mono_id k i = Z.of_nat k * 2 ^ 33 + Z.of_nat i.
Proof.
  intros Hk Hi. unfold mono_id. rewrite Z.shiftl_mul_pow2 by lia.
  apply wrap64_small. change (2 ^ 33) with 8589934592 in *.
  change (2 ^ 30) with 1073741824 in *. lia.
Qed.

Lemma StronglySorted_app {A : Type} (R : A -> A -> Prop) (l1 l2 : list A) :
  StronglySorted R l1 -> StronglySorted R l2 ->
  (forall x y, In x l1 -> In y l2 -> R x y) ->
  StronglySorted R (l1 ++ l2).
Proof.
  induction l1 as [|a l1 IH]; simpl; intros H1 H2 H12; [assumption|].
  inversion H1 as [|? ? Hs Hf]; subst. constructor.
  - apply IH; auto.
  - apply Forall_app. split; [assumption|].
    apply Forall_forall. intros y Hy. apply H12; auto.
Qed.


Lemma StronglySorted_lt_NoDup (l : list Z) : StronglySorted Z.lt l -> NoDup l.
Proof.
  induction 1 as [|a l Hs IH Hf]; constructor; auto.
  intros Hin. rewrite Forall_forall in Hf. specialize (Hf _ Hin). lia.
Qed.

(** The identifiers of one partition. *)
Lemma partition_ids_sorted (k : nat) (i n : nat) :
  Z.of_nat k < 2 ^ 30 -> Z.of_nat (i + n) <= 2 ^ 33 ->
  StronglySorted Z.lt (map (mono_id k) (seq i n)) /\
  Forall (fun id => Z.of_nat k * 2 ^ 33 + Z.of_nat i <= id
                    < (Z.of_nat k + 1) * 2 ^ 33)
         (map (mono_id k) (seq i n)).
Proof.
  intros Hk. revert i. induction n as [|n IH]; intros i Hi; simpl.
  - split; constructor.
  - destruct (IH (S i)) as [Hs Hf]; [lia|].
    assert (He : mono_id k i = Z.of_nat k * 2 ^ 33 + Z.of_nat i)
      by (apply mono_id_exact; lia).
    split.
    + constructor; [assumption|].
      eapply Forall_impl; [|exact Hf]. intros id Hid. cbv beta in Hid. lia.
    + constructor; [lia|].
      eapply Forall_impl; [|exact Hf]. intros id Hid. cbv beta in Hid. lia.
Qed.

Lemma ids_from_sorted (k : nat) (sizes : list nat) :
  Z.of_nat (k + List.length sizes) <= 2 ^ 30 ->
  Forall (fun n => Z.of_nat n <= 2 ^ 33) sizes ->
  StronglySorted Z.lt (ids_from k sizes) /\
  Forall (fun id => Z.of_nat k * 2 ^ 33 <= id) (ids_from k sizes).
Proof.
  revert k. induction sizes as [|n rest IH]; intros k Hk Hsz; simpl.
  - split; constructor.
  - inversion Hsz as [|? ? Hn Hrest]; subst. simpl in Hk.
    destruct (IH (S k)) as [Hs Hf]; [lia|assumption|].
    destruct (partition_ids_sorted k 0 n) as [Hs0 Hf0]; [lia|simpl; lia|].
    split.
    + apply StronglySorted_app; auto.
      intros x y Hx Hy. rewrite Forall_forall in Hf0, Hf.
      specialize (Hf0 _ Hx). specialize (Hf _ Hy). cbv beta in Hf0. lia.
    + apply Forall_app. split.
      * eapply Forall_impl; [|exact Hf0]. intros id Hid. cbv beta in Hid. lia.
      * eapply Forall_impl; [|exact Hf]. intros id Hid. cbv beta in Hid. lia.
Qed.

Lemma ids_from_length (k : nat) (parts : list (list Row)) :
  List.length (ids_from k (map (@List.length Row) parts)) =
  List.length (List.concat parts).
Proof.
  revert k. induction parts as [|p ps IH]; intros k; simpl; [reflexivity|].
  now rewrite !length_app, length_map, length_seq, IH.
Qed.

Lemma combine_app_same {A B : Type} (l1 l2 : list A) (m1 m2 : list B) :
  List.length l1 = List.length m1 ->
  combine (l1 ++ l2) (m1 ++ m2) = combine l1 m1 ++ combine l2 m2.
Proof.
  revert m1. induction l1 as [|a l1 IH]; intros [|b m1]; simpl;
    try discriminate; intros Hl; [reflexivity|].
  now rewrite IH by lia.
Qed.

(** Rows numbered partition by partition are the rows zipped with
    [ids_from]. *)
Lemma rows_numbered {B : Type} (g : Z -> Row -> B) (k : nat)
    (parts : list (list Row)) :
  List.concat
    (map_indexed
       (fun k part => map_indexed (fun i r => g (mono_id k i) r) 0 part)
       k parts) =
  map (fun ir => g (fst ir) (snd ir))
      (combine (ids_from k (map (@List.length Row) parts)) (List.concat parts)).
Proof.
  revert k. induction parts as [|p ps IH]; intros k; simpl; [reflexivity|].
  rewrite IH, combine_app_same by now rewrite length_map, length_seq.
  rewrite map_app. f_equal.
  rewrite FrameFacts.map_indexed_combine.
  generalize 0%nat. induction p as [|r p IHp]; intros i; simpl; [reflexivity|].
  now rewrite IHp.
Qed.

Lemma map_cell_combine (f : Z -> Row -> Row) (i : nat) (ids : list Z)
    (rs : list Row) :
  List.length ids = List.length rs ->
  (forall id r, In r rs -> cell i (f id r) = VInt id) ->
  map (cell i) (map (fun ir => f (fst ir) (snd ir)) (combine ids rs)) =
  map VInt ids.
Proof.
  revert rs. induction ids as [|id ids IH]; intros [|r rs]; simpl;
    try discriminate; intros Hl Hc; [reflexivity|].
  rewrite Hc by now left. f_equal. apply IH; [lia|]. intros; apply Hc; auto.
Qed.

End IdFacts.

Lemma patients_df_rows (f : CsvFile) :
  exists df,
    patients_df f = Ok df /\
    columns df = put_column (map normalize (header f)) "patient_id" /\
    types df =
      put_type (map normalize (header f)) "patient_id" LongType
        (types (read_csv f)) /\
    rows df =
    map (fun ir => put_cell (map normalize (header f)) "patient_id"
                     (VInt (fst ir)) (snd ir))
        (combine (patient_ids f) (rows (read_csv f))).
Proof.
  eexists. split; [reflexivity|]. split; [reflexivity|].
  split; [reflexivity|].
  unfold rows at 1. cbn [partitions columns normalize_columns read_csv snd].
  rewrite (IdFacts.rows_numbered
             (fun id r => put_cell (map normalize (header f)) "patient_id"
                            (VInt id) r)).
  unfold patient_ids, rows, read_csv. cbn [partitions].
  rewrite map_map.
  rewrite (map_ext (fun x => List.length (map (fit (List.length (header f))) x))
                   (@List.length Row)) by (intros; apply length_map).
  reflexivity.
Qed.

Lemma read_csv_conforms (f : CsvFile) (r : Row) :
  In r (rows (read_csv f)) -> List.length r = List.length (header f).
Proof.
  unfold rows, read_csv. cbn [partitions]. rewrite in_concat.
  intros (part & Hpart & Hr). apply in_map_iff in Hpart as (raw & <- & _).
  apply in_map_iff in Hr as (x & <- & _). apply FrameFacts.fit_length.
Qed.

Lemma read_csv_length (f : CsvFile) :
  List.length (rows (read_csv f)) = List.length (List.concat (splits f)).
Proof.
  unfold rows, read_csv. cbn [partitions].
  rewrite !length_concat, map_map. f_equal. apply map_ext.
  intros part. apply length_map.
Qed.

Lemma patient_ids_length (f : CsvFile) :
  List.length (patient_ids f) = List.length (rows (read_csv f)).
Proof.
  rewrite read_csv_length. apply IdFacts.ids_from_length.
Qed.





(** ** The range join *)

Module JoinFacts.

Lemma map_indexed_const {A B : Type} (h : A -> B) (i : nat) (l : list A) :
  map_indexed (fun _ a => h a) i l = map h l.
Proof.
  revert i. induction l as [|a l IH]; intros i; simpl; [reflexivity|].
  now rewrite IH.
Qed.

Lemma rows_unnumbered {B : Type} (h : Row -> B) (k : nat)
    (parts : list (list Row)) :
  List.concat
    (map_indexed (fun _ part => map_indexed (fun _ r => h r) 0 part) k parts) =
  map h (List.concat parts).
Proof.
  rewrite map_indexed_const, concat_map. f_equal.
  apply map_ext. intros part. apply map_indexed_const.
Qed.

(** Step 5, row by row. *)
Lemma readmissions_df_rows (f : CsvFile) :
  match resolve (map normalize (header f)) "age" with
  | Ok iage =>
      exists df,
        readmissions_df f = Ok df /\
        columns df = put_column (map normalize (header f)) "age_lower" /\
        types df =
          put_type (map normalize (header f)) "age_lower" IntegerType
            (types (read_csv f)) /\
        rows df =
        map (fun r => put_cell (map normalize (header f)) "age_lower"
                        (lower_cell (cell iage r)) r)
            (rows (read_csv f))
  | Err e => readmissions_df f = Err e
  end.
Proof.
  unfold readmissions_df, withColumn, cast_integer, regexp_extract, col.
  cbn [columns types normalize_columns read_csv partitions].
  destruct (resolve (map normalize (header f)) "age") as [iage|e];
    cbn [bind]; [|reflexivity].
  eexists. split; [reflexivity|]. split; [reflexivity|].
  split; [reflexivity|].
  unfold rows. cbn [partitions snd].
  apply (rows_unnumbered
           (fun r => put_cell (map normalize (header f)) "age_lower"
                       (lower_cell (cell iage r)) r)).
Qed.

(** Step 7 is a nested loop over both sides with the [between] filter, once
    the references resolve and the patient [age] column has a type that
    compares with an integer. *)
Lemma joined_df_pairs {E : Engine} (p r : DataFrame) :
  match resolve (columns p) "age", resolve (columns r) "age_lower" with
  | Ok ia, Ok il =>
      joined_df p r =
      if coercible (type_at ia (types p))
      then Ok (mkJoined "p" (columns p) (types p) "r" (columns r) (types r)
                 (nested_loop ia il (rows p) (rows r)))
      else Err (Mismatch "between")
  | Err e, _ => joined_df p r = Err e
  | Ok _, Err e => joined_df p r = Err e
  end.
Proof.
  unfold joined_df, join_inner, between, plus, qcol, resolve_qualified.
  cbn [alias qualifier frame split_dot Ascii.eqb Bool.eqb String.eqb].
  destruct (resolve (columns p) "age") as [ia|e]; cbn [bind]; [|reflexivity].
  destruct (resolve (columns r) "age_lower") as [il|e]; cbn [bind];
    [|reflexivity].
  cbn [fst snd pick_type].
  destruct (coercible (type_at ia (types p))); reflexivity.
Qed.

End JoinFacts.

Module PredicateFacts.

Lemma digit_of_nonneg (c : ascii) : Regex.is_digit c = true -> 0 <= Cast.digit_of c.
Proof.
  unfold Regex.is_digit, Cast.digit_of. intros H.
  apply andb_true_iff in H as [H _]. apply N.leb_le in H. lia.
Qed.

Lemma digits_value_from_nonneg (s : string) (acc : Z) :
  0 <= acc -> Regex.all_digits s = true -> 0 <= Cast.digits_value_from acc s.
Proof.
  revert acc. induction s as [|c s IH]; intros acc Hacc; simpl; [auto|].
  intros H. apply andb_true_iff in H as [Hc Hs].
  apply IH; [|assumption]. pose proof (digit_of_nonneg c Hc). lia.
Qed.

Lemma cast_integer_range (s : string) (n : Z) :
  Cast.cast_integer s = Some n -> 0 <= n <= Cast.int_max.
Proof.
  unfold Cast.cast_integer. destruct s as [|c s]; [discriminate|].
  destruct (Regex.all_digits (String c s)) eqn:Hd; [|discriminate].
  destruct (Z.leb_spec (Cast.digits_value (String c s)) Cast.int_max)
    as [Hle|Hgt]; [|discriminate].
  intros [= <-]. split; [|exact Hle].
  apply digits_value_from_nonneg; [lia|exact Hd].
Qed.

(** The derived cell is null or a 32-bit non-negative integer, and it is an
    integer exactly when the cell is a label that parses. *)
Lemma lower_cell_VInt (v : value) (n : Z) :
  lower_cell v = VInt n <-> exists s, v = VStr s /\ age_lower s = Some n.
Proof.
  unfold lower_cell, age_lower. split.
  - destruct v as [|z|q|s| | | | |]; simpl; try discriminate.
    destruct (Cast.cast_integer (Regex.regexp_extract s)) eqn:Hc;
      [|discriminate].
    intros [= <-]. now exists s.
  - intros (s & -> & Hs). simpl. now rewrite Hs.
Qed.

Lemma lower_cell_range (v : value) (n : Z) :
  lower_cell v = VInt n -> 0 <= n <= Cast.int_max.
Proof.
  intros H. apply lower_cell_VInt in H as (s & _ & Hs).
  now apply cast_integer_range in Hs.
Qed.

Lemma lower_cell_shape (v : value) :
  lower_cell v = VNull \/ exists n, lower_cell v = VInt n.
Proof.
  unfold lower_cell. destruct v as [|z|q|s| | | | |]; simpl; auto.
  destruct (Cast.cast_integer (Regex.regexp_extract s)); eauto.
Qed.

Lemma wrap32_small (z : Z) :
  Cast.int_min <= z <= Cast.int_max -> Cast.wrap32 z = z.
Proof.
  unfold Cast.int_min, Cast.int_max, Cast.wrap32. intros Hz.
  rewrite Z.mod_small; lia.
Qed.


(** The comparison ranks a cell by the age it stands for. *)
Lemma age_value_rank {E : Engine} (v : value) :
  age_value v =
  match rank_of v with
  | Some (Finite q) => Some q
  | _ => None
  end.
Proof.
  destruct v as [|a|q|s| |negative| | |]; cbn [age_value rank_of];
    try reflexivity.
  - now destruct (string_to_int s).
  - now destruct negative.
Qed.


(** What a pair has to satisfy to pass the filter of the join. *)
Lemma matches_true {E : Engine} (ia il : nat) (l x : Row) :
  matches ia il l x = true <->
  exists q lo,
    age_value (cell ia l) = Some q /\ cell il x = VInt lo /\
    (inject_Z lo <= q)%Q /\ (q <= inject_Z (Cast.wrap32 (lo + 9)))%Q.
Proof.
  rewrite age_value_rank.
  unfold matches, between_cell, ge3, le3, plus_cell. split.
  - destruct (rank_of (cell ia l)) as [[q| |]|];
      destruct (cell il x) as [|lo|q'|s'| | | | |]; cbn [int_cell];
      try discriminate.
    destruct (Qle_bool (inject_Z lo) q) eqn:H1;
      destruct (Qle_bool q (inject_Z (Cast.wrap32 (lo + 9)))) eqn:H2;
      try discriminate.
    intros _. exists q, lo. apply Qle_bool_iff in H1, H2. auto.
  - intros (q & lo & Hq & -> & H1 & H2).
    destruct (rank_of (cell ia l)) as [[q0| |]|]; try discriminate.
    injection Hq as ->. cbn [int_cell].
    apply Qle_bool_iff in H1, H2. now rewrite H1, H2.
Qed.

(** A null lower bound matches nobody. *)
Lemma matches_null {E : Engine} (ia il : nat) (l x : Row) :
  cell il x = VNull -> matches ia il l x = false.
Proof.
  intros Hx. unfold matches, between_cell, ge3, le3, plus_cell. rewrite Hx.
  cbn [int_cell]. now destruct (rank_of (cell ia l)) as [[q| |]|].
Qed.



End PredicateFacts.

Module PipelineFacts.

(** A successful run of steps 2 to 7, taken apart. *)
Lemma etl_join_Ok {E : Engine} (pf rf : CsvFile) (j : JoinedFrame) :
  etl_join pf rf = Ok j ->
  exists pdf rdf ia il iage,
    patients_df pf = Ok pdf /\
    readmissions_df rf = Ok rdf /\
    resolve (columns pdf) "age" = Ok ia /\
    resolve (columns rdf) "age_lower" = Ok il /\
    resolve (map normalize (header rf)) "age" = Ok iage /\
    rows rdf = map (with_lower (header rf) iage) (rows (read_csv rf)) /\
    (forall r, In r (rows (read_csv rf)) ->
               cell il (with_lower (header rf) iage r) = lower_cell (cell iage r)) /\
    coercible (type_at ia (types pdf)) = true /\
    j = mkJoined "p" (columns pdf) (types pdf) "r" (columns rdf) (types rdf)
          (nested_loop ia il (rows pdf) (rows rdf)).
Proof.
  unfold etl_join.
  destruct (patients_df pf) as [pdf|e] eqn:Hp; cbn [bind]; [|discriminate].
  pose proof (JoinFacts.readmissions_df_rows rf) as Hr.
  destruct (resolve (map normalize (header rf)) "age") as [iage|e] eqn:Hage.
  2:{ rewrite Hr. discriminate. }
  destruct Hr as (rdf & Hrdf & Hcols & _ & Hrows). rewrite Hrdf. cbn [bind].
  pose proof (JoinFacts.joined_df_pairs pdf rdf) as Hj.
  destruct (resolve (columns pdf) "age") as [ia|e] eqn:Hia.
  2:{ rewrite Hj. discriminate. }
  destruct (resolve (columns rdf) "age_lower") as [il|e] eqn:Hil.
  2:{ rewrite Hj. discriminate. }
  rewrite Hj.
  destruct (coercible (type_at ia (types pdf))) eqn:Hty; [|discriminate].
  intros [= <-].
  exists pdf, rdf, ia, il, iage.
  do 6 (split; [solve [auto]|]). split; [|split; [exact Hty|reflexivity]].
  intros r Hin. unfold with_lower. apply FrameFacts.cell_put_cell.
  - rewrite length_map. now apply read_csv_conforms.
  - now rewrite <- Hcols.
Qed.

Lemma nested_loop_pairs {E : Engine} (ia il : nat) (ps rs : list Row)
    (l x : Row) :
  In (l, x) (nested_loop ia il ps rs) <->
  In l ps /\ In x rs /\ matches ia il l x = true.
Proof.
  unfold nested_loop. rewrite in_flat_map. split.
  - intros (l' & Hl & Hin). apply in_map_iff in Hin as (x' & [= <- <-] & Hx).
    apply filter_In in Hx as [Hx Hm]. auto.
  - intros (Hl & Hx & Hm). exists l. split; [exact Hl|].
    apply in_map. apply filter_In. auto.
Qed.


End PipelineFacts.

Module CountFacts.


Lemma Forall2_map_block {A B : Type} (P : A -> B -> Prop) (f : A -> B)
    (l : list A) :
  (forall a, In a l -> P a (f a)) -> Forall2 P l (map f l).
Proof.
  induction l as [|a l IH]; simpl; intros H; constructor; auto.
Qed.




End CountFacts.

(** The identifier cells of the patient frame, wherever its schema holds
    [patient_id]. *)
Lemma patient_id_column (f : CsvFile) (i : nat) :
  nth_error (put_column (map normalize (header f)) "patient_id") i =
    Some "patient_id" ->
  map (cell i)
      (map (fun ir => put_cell (map normalize (header f)) "patient_id"
                        (VInt (fst ir)) (snd ir))
           (combine (patient_ids f) (rows (read_csv f)))) =
  map VInt (patient_ids f).
Proof.
  intros Hi.
  apply (IdFacts.map_cell_combine
           (fun id r => put_cell (map normalize (header f)) "patient_id"
                          (VInt id) r)); [apply patient_ids_length|].
  intros id r Hr. apply FrameFacts.cell_put_cell_at; [|exact Hi].
  rewrite length_map. now apply read_csv_conforms.
Qed.

Lemma patient_ids_sorted (f : CsvFile) :
  Z.of_nat (List.length (splits f)) <= 2 ^ 30 ->
  Forall (fun part => Z.of_nat (List.length part) <= 2 ^ 33) (splits f) ->
  StronglySorted Z.lt (patient_ids f).
Proof.
  intros Hparts Hsizes. apply IdFacts.ids_from_sorted.
  - rewrite length_map. simpl. exact Hparts.
  - apply Forall_map. exact Hsizes.
Qed.


Lemma NoDup_map_VInt (l : list Z) : NoDup l -> NoDup (map VInt l).
Proof.
  induction 1 as [|a l Hn Hnd IH]; simpl; constructor; [|assumption].
  intros Hin. apply in_map_iff in Hin as (b & [= ->] & Hb). contradiction.
Qed.





Module NullFacts.

Lemma joined_df_pairs_eq {E : Engine} (p r r' : DataFrame) :
  columns r = columns r' ->
  (forall ia il,
      resolve (columns p) "age" = Ok ia ->
      resolve (columns r) "age_lower" = Ok il ->
      nested_loop ia il (rows p) (rows r) =
      nested_loop ia il (rows p) (rows r')) ->
  result_map pairs (joined_df p r) = result_map pairs (joined_df p r').
Proof.
  intros Hcols Hloop.
  pose proof (JoinFacts.joined_df_pairs p r) as H.
  pose proof (JoinFacts.joined_df_pairs p r') as H'.
  rewrite <- Hcols in H'.
  destruct (resolve (columns p) "age") as [ia|e].
  - destruct (resolve (columns r) "age_lower") as [il|e'].
    + rewrite H, H'. destruct (coercible (type_at ia (types p)));
        [|reflexivity].
      cbn [result_map pairs]. f_equal. now apply Hloop.
    + now rewrite H, H'.
  - now rewrite H, H'.
Qed.

(** A row that matches nobody can be dropped from the right side. *)
Lemma nested_loop_drop {E : Engine} (ia il : nat) (ps r1 r2 : list Row)
    (x : Row) :
  (forall l, matches ia il l x = false) ->
  nested_loop ia il ps (r1 ++ x :: r2) = nested_loop ia il ps (r1 ++ r2).
Proof.
  intros Hx. unfold nested_loop. apply flat_map_ext. intros l.
  rewrite !filter_app. cbn [filter]. now rewrite Hx.
Qed.

Lemma rows_insert (h : list string) (before : list (list Row))
    (a : list Row) (x : Row) (b : list Row) (after : list (list Row)) :
  exists r1 r2,
    rows (read_csv (mkCsv h (before ++ (a ++ x :: b) :: after))) =
      r1 ++ fit (List.length h) x :: r2 /\
    rows (read_csv (mkCsv h (before ++ (a ++ b) :: after))) = r1 ++ r2.
Proof.
  unfold rows, read_csv. cbn [header splits partitions].
  exists (List.concat (map (map (fit (List.length h))) before)
            ++ map (fit (List.length h)) a),
         (map (fit (List.length h)) b
            ++ List.concat (map (map (fit (List.length h))) after)).
  rewrite !map_app, !concat_app. cbn [map List.concat].
  rewrite !map_app. cbn [map]. rewrite <- !app_assoc. split; reflexivity.
Qed.

End NullFacts.

(** C4.  A readmission record whose label does not parse (its [age_lower] is
    null) adds no row to the joined output, whatever the patients are, and it
    is not an error: the run with the record ends as the run without it, with
    the same joined rows or with the same analysis error.  In particular one
    readmission labelled [invalid] joins with no patient. *)
Theorem unparsed_label_contributes_nothing {E : Engine} :
  (forall (pf : CsvFile) (h : list string) (before : list (list Row))
          (a : list Row) (x : Row) (b : list Row) (after : list (list Row)),
      (forall iage, resolve (map normalize h) "age" = Ok iage ->
                    lower_cell (cell iage (fit (List.length h) x)) = VNull) ->
      result_map pairs
        (etl_join pf (mkCsv h (before ++ (a ++ x :: b) :: after))) =
      result_map pairs
        (etl_join pf (mkCsv h (before ++ (a ++ b) :: after)))) /\
  (forall (pf : CsvFile) (j : JoinedFrame),
      etl_join pf (bucket "invalid") = Ok j -> pairs j = []).
Proof.
  assert (Hgen :
    forall pf h before a x b after,
      (forall iage, resolve (map normalize h) "age" = Ok iage ->
                    lower_cell (cell iage (fit (List.length h) x)) = VNull) ->
      result_map pairs
        (etl_join pf (mkCsv h (before ++ (a ++ x :: b) :: after))) =
      result_map pairs
        (etl_join pf (mkCsv h (before ++ (a ++ b) :: after)))).
  { intros pf h before a x b after Hnull. unfold etl_join.
    destruct (patients_df pf) as [pdf|e]; cbn [bind]; [|reflexivity].
    pose proof (JoinFacts.readmissions_df_rows
                  (mkCsv h (before ++ (a ++ x :: b) :: after))) as H1.
    pose proof (JoinFacts.readmissions_df_rows
                  (mkCsv h (before ++ (a ++ b) :: after))) as H2.
    cbn [header] in H1, H2.
    destruct (resolve (map normalize h) "age") as [iage|e] eqn:Hage.
    2:{ now rewrite H1, H2. }
    destruct H1 as (rdf & -> & Hc & _ & Hr).
    destruct H2 as (rdf' & -> & Hc' & _ & Hr').
    cbn [bind]. apply NullFacts.joined_df_pairs_eq; [congruence|].
    intros ia il _ Hil.
    destruct (NullFacts.rows_insert h before a x b after) as (r1 & r2 & E1 & E2).
    rewrite Hr, Hr', E1, E2, !map_app. cbn [map].
    apply NullFacts.nested_loop_drop. intros l.
    apply PredicateFacts.matches_null.
    rewrite <- (Hnull iage eq_refl).
    apply FrameFacts.cell_put_cell.
    - now rewrite FrameFacts.fit_length, length_map.
    - now rewrite <- Hc. }
  split; [exact Hgen|].
  intros pf j Hj.
  assert (E0 : result_map pairs (etl_join pf (bucket "invalid")) =
               result_map pairs (etl_join pf (mkCsv ["age"] [[]]))).
  { apply (Hgen pf ["age"] [] [] [VStr "invalid"] [] []).
    intros iage Hres. vm_compute in Hres. injection Hres as <-. reflexivity. }
  rewrite Hj in E0. cbn [result_map] in E0.
  destruct (etl_join pf (mkCsv ["age"] [[]])) as [j'|e] eqn:Hj';
    cbn [result_map] in E0; [|discriminate].
  injection E0 as ->.
  apply PipelineFacts.etl_join_Ok in Hj'
    as (pdf & rdf & ia & il & iage & _ & _ & _ & _ & _ & Hrows & _ & _ & ->).
  cbn [pairs]. rewrite Hrows. cbn.
  unfold nested_loop. clear. induction (rows pdf); simpl; auto.
Qed.

Lemma unparsed_label_contributes_nothing_witness :
  result_map pairs
    (etl_join (E := sample_engine) (patient_aged 25) (bucket "invalid")) = Ok [].
Proof.
  destruct (etl_join (E := sample_engine) (patient_aged 25) (bucket "invalid"))
    as [j|e] eqn:Hj.
  - cbn [result_map]. f_equal.
    exact (proj2 (unparsed_label_contributes_nothing (E := sample_engine))
             (patient_aged 25) j Hj).
  - vm_compute in Hj. discriminate Hj.
Defined.

(** ** [withColumn] leaves the other columns alone *)

Module KeepFacts.

Lemma positions_app_other (name added : string) (cols : list string) (i : nat) :
  added <> name -> positions name (cols ++ [added]) i = positions name cols i.
Proof.
  intros Hne. revert i. induction cols as [|c cs IH]; intros i; simpl.
  - destruct (String.eqb_spec added name); [contradiction|reflexivity].
  - now rewrite IH.
Qed.

Lemma resolve_put_column_other (cols : list string) (added name : string) :
  added <> name -> resolve (put_column cols added) name = resolve cols name.
Proof.
  intros Hne. unfold put_column, resolve.
  destruct (has_column added cols); [reflexivity|].
  now rewrite positions_app_other.
Qed.

(** The cells of a column that [withColumn] does not write. *)
Lemma kept_column (cols : list string) (added name : string) (j : nat)
    (f : Row -> value) (rs : list Row) :
  added <> name ->
  resolve cols name = Ok j ->
  Forall (fun r => List.length r = List.length cols) rs ->
  resolve (put_column cols added) name = Ok j /\
  map (cell j) (map (fun r => put_cell cols added (f r) r) rs) = map (cell j) rs.
Proof.
  intros Hne Hj Hconf.
  assert (Hi : resolve (put_column cols added) name = Ok j)
    by now rewrite resolve_put_column_other.
  split; [exact Hi|]. rewrite map_map. apply map_ext_in. intros r Hr.
  rewrite Forall_forall in Hconf.
  apply (FrameFacts.cell_put_cell_other cols added name (f r) r j j); auto.
Qed.

End KeepFacts.

(** ** The select list *)

Module SelectFacts.

Lemma mapM_Forall2 {A B : Type} (f : A -> result B) (l : list A) (bs : list B) :
  mapM f l = Ok bs -> Forall2 (fun a b => f a = Ok b) l bs.
Proof.
  revert bs. induction l as [|a l IH]; intros bs; simpl.
  - intros [= <-]. constructor.
  - destruct (f a) as [b|e] eqn:Hb; cbn [bind]; [|discriminate].
    destruct (mapM f l) as [bs'|e]; cbn [bind]; [|discriminate].
    intros [= <-]. constructor; auto.
Qed.

Lemma Forall2_length_eq {A B : Type} (P : A -> B -> Prop) (l : list A)
    (m : list B) :
  Forall2 P l m -> List.length l = List.length m.
Proof. induction 1; simpl; auto. Qed.

Lemma Forall2_impl_in {A B : Type} (P Q : A -> B -> Prop) (l : list A)
    (m : list B) :
  (forall a b, In a l -> P a b -> Q a b) -> Forall2 P l m -> Forall2 Q l m.
Proof.
  intros H HF. induction HF as [|a b l m Hab HF IH]; constructor.
  - apply H; [now left|assumption].
  - apply IH. intros; apply H; [now right|assumption].
Qed.

Lemma Forall2_nth_error {A B : Type} (P : A -> B -> Prop) (l : list A)
    (m : list B) (n : nat) (a : A) :
  Forall2 P l m -> nth_error l n = Some a ->
  exists b, nth_error m n = Some b /\ P a b.
Proof.
  intros HF. revert n. induction HF as [|x y l m Hxy HF IH]; intros n.
  - destruct n; discriminate.
  - destruct n as [|n]; simpl.
    + intros [= <-]. eauto.
    + apply IH.
Qed.

Lemma Forall2_In_r {A B : Type} (P : A -> B -> Prop) (l : list A)
    (m : list B) (b : B) :
  Forall2 P l m -> In b m -> exists a, In a l /\ P a b.
Proof.
  induction 1 as [|x y l m Hxy HF IH]; simpl; [easy|].
  intros [<-|Hin]; [eauto|].
  destruct (IH Hin) as (a & Ha & Hab). eauto.
Qed.

(** Where a qualified reference resolves to. *)
Lemma resolve_qualified_source (j : JoinedFrame) (s : selection)
    (loc : side * nat) :
  resolve_qualified (left_alias j) (left_columns j)
    (right_alias j) (right_columns j) (reference s) = Ok loc ->
  exists src,
    source_of (left_alias j) (right_alias j) s = Some src /\
    drawn_from j src loc.
Proof.
  unfold resolve_qualified, source_of, drawn_from.
  destruct (split_dot (reference s)) as [[q name]|]; [|discriminate].
  destruct (String.eqb q (left_alias j)).
  - destruct (resolve (left_columns j) name) as [i|e] eqn:Hi; cbn [bind];
      [|discriminate].
    intros [= <-]. exists (Left, name). auto.
  - destruct (String.eqb q (right_alias j)); [|discriminate].
    destruct (resolve (right_columns j) name) as [i|e] eqn:Hi; cbn [bind];
      [|discriminate].
    intros [= <-]. exists (Right, name). auto.
Qed.

Lemma final_sources_of_selection :
  map (source_of "p" "r") final_selection = map Some final_sources.
Proof. reflexivity. Qed.

(** Step 8 on the result of step 7. *)
Lemma final_df_Ok (j : JoinedFrame) (df : DataFrame) :
  left_alias j = "p" -> right_alias j = "r" ->
  final_df j = Ok df ->
  columns df = final_columns /\
  exists locs,
    Forall2 (drawn_from j) final_sources locs /\
    types df =
      map (fun loc => pick_type loc (left_types j) (right_types j)) locs /\
    rows df =
    map (fun lx => map (fun loc => pick loc (fst lx) (snd lx)) locs) (pairs j).
Proof.
  intros Hl Hr. unfold final_df, select.
  destruct (mapM _ final_selection) as [locs|e] eqn:Hm; cbn [bind];
    [|discriminate].
  intros [= <-]. split; [reflexivity|].
  exists locs. split; [|split; [reflexivity|]].
  - apply mapM_Forall2 in Hm.
    assert (H : Forall2 (fun s loc =>
                  exists src, Some src = source_of "p" "r" s /\
                              drawn_from j src loc)
                final_selection locs).
    { eapply Forall2_impl_in; [|exact Hm]. intros s loc _ Hs.
      apply resolve_qualified_source in Hs as (src & Hsrc & Hd).
      rewrite Hl, Hr in Hsrc. now exists src. }
    clear Hm. revert H. generalize final_sources_of_selection.
    generalize final_sources. generalize final_selection.
    intros sel. revert locs.
    induction sel as [|s sel IH]; intros locs srcs Heq HF.
    + destruct srcs; [|discriminate]. inversion HF. constructor.
    + destruct srcs as [|src srcs]; [discriminate|].
      simpl in Heq. injection Heq as Hs Hrest.
      inversion HF as [|? loc ? locs' (src' & Hsrc' & Hd) HF']; subst.
      rewrite Hs in Hsrc'. injection Hsrc' as ->.
      constructor; [exact Hd|]. now apply IH.
  - unfold rows. cbn [partitions List.concat]. now rewrite app_nil_r.
Qed.

Lemma etl_final_Ok {E : Engine} (pf rf : CsvFile) (df : DataFrame) :
  etl_final pf rf = Ok df ->
  exists j, etl_join pf rf = Ok j /\ final_df j = Ok df /\
            left_alias j = "p" /\ right_alias j = "r".
Proof.
  unfold etl_final. destruct (etl_join pf rf) as [j|e] eqn:Hj; cbn [bind];
    [|discriminate].
  intros Hf. exists j. split; [reflexivity|]. split; [exact Hf|].
  apply PipelineFacts.etl_join_Ok in Hj
    as (? & ? & ? & ? & ? & _ & _ & _ & _ & _ & _ & _ & _ & ->).
  split; reflexivity.
Qed.

Lemma not_In_by_dec {A : Type} (dec : forall x y : A, {x = y} + {x <> y})
    (a : A) (l : list A) :
  (if in_dec dec a l then false else true) = true -> ~ In a l.
Proof. destruct (in_dec dec a l); [discriminate|auto]. Qed.

Lemma NoDup_by_nodup {A : Type} (dec : forall x y : A, {x = y} + {x <> y})
    (l : list A) :
  nodup dec l = l -> NoDup l.
Proof. intros <-. apply NoDup_nodup. Qed.

Lemma final_columns_NoDup : NoDup final_columns.
Proof. apply (NoDup_by_nodup string_dec). reflexivity. Qed.

Lemma final_sources_drop_age :
  ~ In (Right, "age") final_sources /\ ~ In (Right, "age_lower") final_sources.
Proof.
  split; apply (not_In_by_dec side_name_eq_dec); reflexivity.
Qed.

(** A place the select list draws from is not the place of a column it does
    not name. *)
Lemma not_selected (j : JoinedFrame) (locs : list (side * nat))
    (sd : side) (name : string) (i : nat) :
  Forall2 (drawn_from j) final_sources locs ->
  ~ In (sd, name) final_sources ->
  resolve (side_columns j sd) name = Ok i ->
  ~ In (sd, i) locs.
Proof.
  intros Hlocs Hnot Hi Hin.
  destruct (Forall2_In_r _ _ _ _ Hlocs Hin) as ([sd' name'] & Hsrc & Hs & Hr).
  cbn [fst snd] in Hs, Hr. subst sd'.
  apply FrameFacts.resolve_Ok in Hi as [Hi _].
  apply FrameFacts.resolve_Ok in Hr as [Hr _].
  assert (name' = name) as -> by congruence. contradiction.
Qed.

(** The third output field is the patient's [age]. *)
Lemma final_age_cell (j : JoinedFrame) (locs : list (side * nat)) (ia : nat) :
  Forall2 (drawn_from j) final_sources locs ->
  resolve (left_columns j) "age" = Ok ia ->
  nth_error locs 2 = Some (Left, ia) /\
  forall l x,
    cell 2 (map (fun loc => pick loc l x) locs) = cell ia l.
Proof.
  intros Hlocs Hia.
  destruct (Forall2_nth_error _ _ _ 2 (Left, "age") Hlocs eq_refl)
    as ([sd k] & Hloc & Hside & Hres).
  cbn [fst snd side_columns] in Hside, Hres. subst sd.
  assert (k = ia) as -> by congruence.
  split; [exact Hloc|]. intros l x.
  unfold cell at 1. erewrite (nth_error_nth _ _ _); cycle 1.
  { rewrite nth_error_map, Hloc. reflexivity. }
  reflexivity.
Qed.

End SelectFacts.



Lemma sample_etl_final :
  etl_final (E := sample_engine) sample_patients sample_readmissions =
  Ok sample_final.
Proof. vm_compute. reflexivity. Qed.

(** C5, as the specification words it, fails in its second half: both sides of the
    sample join define [age], the output keeps the patient's, and the
    readmission side's [age] is kept under no name at all: the output has 32
    of the 34 fields of the two sides and none of its cells holds a
    readmission label. *)
Lemma readmission_age_not_kept :
  List.length (columns sample_final) = 32%nat /\
  rows sample_final <> [] /\
  Forall (fun row => ~ In (VStr "[70-80)") row /\ ~ In (VStr "[30-40)") row)
         (rows sample_final) /\
  forall E : Engine,
  exists j,
    etl_join sample_patients sample_readmissions = Ok j /\
    final_df j = Ok sample_final /\
    In "age" (left_columns j) /\ In "age" (right_columns j) /\
    (List.length (left_columns j) + List.length (right_columns j) = 34)%nat /\
    Forall (fun lx => In (VStr "[70-80)") (snd lx) \/ In (VStr "[30-40)") (snd lx))
           (pairs j).
Proof.
  split; [reflexivity|]. split; [discriminate|]. split.
  { apply Forall_forall. intros row [<-|[<-|[<-|[]]]]; split;
      apply (SelectFacts.not_In_by_dec value_eq_dec); vm_compute; reflexivity. }
  intros E. eexists. split; [vm_compute; reflexivity|].
  split; [vm_compute; reflexivity|].
  split; [vm_compute; tauto|]. split; [vm_compute; tauto|].
  split; [reflexivity|].
  apply Forall_forall. intros lx [<-|[<-|[<-|[]]]]; vm_compute; tauto.
Qed.

(** C5, amended.  When both sources define [age], every joined output record
    carries the patient side's value under that name.  The output fields are
    the sixteen patient-side and sixteen readmission-side fields of the select
    list under their unqualified names: every cell of an output record is the
    cell of the selected source column in the patient or the readmission
    record of its pair.  The readmission side's [age] and the derived
    [age_lower] are dropped, not renamed: no output field draws from the
    place of either. *)
Theorem patient_age_wins {E : Engine} (pf rf : CsvFile) (df : DataFrame) :
  etl_final pf rf = Ok df ->
  exists j ia iage il locs,
    etl_join pf rf = Ok j /\
    resolve (left_columns j) "age" = Ok ia /\
    resolve (right_columns j) "age" = Ok iage /\
    resolve (right_columns j) "age_lower" = Ok il /\
    columns df = map snd final_sources /\
    resolve (columns df) "age" = Ok 2%nat /\
    Forall2 (drawn_from j) final_sources locs /\
    rows df =
      map (fun lx => map (fun loc => pick loc (fst lx) (snd lx)) locs)
          (pairs j) /\
    nth_error locs 2 = Some (Left, ia) /\
    Forall2 (fun lx row => cell 2 row = cell ia (fst lx)) (pairs j) (rows df) /\
    ~ In (Right, iage) locs /\
    ~ In (Right, il) locs /\
    List.length (filter (fun s => match fst s with Left => true | Right => false end)
                        final_sources) = 16%nat /\
    List.length (filter (fun s => match fst s with Left => false | Right => true end)
                        final_sources) = 16%nat /\
    Forall (fun c => split_dot c = None) (columns df).
Proof.
  intros Hf.
  destruct (SelectFacts.etl_final_Ok _ _ _ Hf) as (j & Hj & Hfd & Hl & Hr).
  destruct (SelectFacts.final_df_Ok j df Hl Hr Hfd)
    as (Hcols & locs & Hlocs & _ & Hrows).
  pose proof SelectFacts.final_sources_drop_age as [Hage Hlower].
  pose proof (PipelineFacts.etl_join_Ok _ _ _ Hj)
    as (pdf & rdf & ia & il & iage & _ & Hrdf & Hia & Hil & Hiage & _ & _ & _ & Ej).
  assert (Hrage : resolve (right_columns j) "age" = Ok iage).
  { subst j. cbn [right_columns].
    pose proof (JoinFacts.readmissions_df_rows rf) as H. rewrite Hiage in H.
    destruct H as (rdf' & Hrdf' & Hc & _). rewrite Hrdf in Hrdf'.
    injection Hrdf' as <-. rewrite Hc.
    rewrite KeepFacts.resolve_put_column_other; [exact Hiage|discriminate]. }
  assert (Hlia : resolve (left_columns j) "age" = Ok ia)
    by (subst j; exact Hia).
  assert (Hril : resolve (right_columns j) "age_lower" = Ok il)
    by (subst j; exact Hil).
  destruct (SelectFacts.final_age_cell j locs ia Hlocs Hlia) as [Hloc Hcell].
  exists j, ia, iage, il, locs. rewrite Hcols.
  split; [exact Hj|]. split; [exact Hlia|]. split; [exact Hrage|].
  split; [exact Hril|]. split; [reflexivity|]. split; [reflexivity|].
  split; [exact Hlocs|]. split; [exact Hrows|]. split; [exact Hloc|].
  split.
  { rewrite Hrows. apply CountFacts.Forall2_map_block. intros lx _.
    apply Hcell. }
  split; [exact (SelectFacts.not_selected j locs Right "age" iage Hlocs Hage Hrage)|].
  split; [exact (SelectFacts.not_selected j locs Right "age_lower" il Hlocs Hlower Hril)|].
  split; [reflexivity|]. split; [reflexivity|].
  apply Forall_forall. intros c Hc.
  repeat (destruct Hc as [<-|Hc]; [reflexivity|]). destruct Hc.
Qed.

Lemma patient_age_wins_witness :
  exists j ia iage locs,
    etl_join (E := sample_engine) sample_patients sample_readmissions = Ok j /\
    resolve (left_columns j) "age" = Ok ia /\
    resolve (right_columns j) "age" = Ok iage /\
    rows sample_final =
      map (fun lx => map (fun loc => pick loc (fst lx) (snd lx)) locs)
          (pairs j) /\
    Forall2 (fun lx row => cell 2 row = cell ia (fst lx))
            (pairs j) (rows sample_final) /\
    ~ In (Right, iage) locs.
Proof.
  destruct (patient_age_wins _ _ _ sample_etl_final)
    as (j & ia & iage & il & locs & Hj & Hia & Hiage & _ & _ & _ & _ & Hrows
        & _ & Hcells & Hnot & _).
  exists j, ia, iage, locs. auto 10.
Defined.

(** ** Grouped counts *)

Module AggregationFacts.

Lemma value_eqb_eq (a b : value) : value_eqb a b = true <-> a = b.
Proof. unfold value_eqb. destruct (value_eq_dec a b); split; congruence. Qed.

Lemma value_eqb_refl (a : value) : value_eqb a a = true.
Proof. now apply value_eqb_eq. Qed.

Lemma value_eqb_neq (a b : value) : value_eqb a b = false <-> a <> b.
Proof. unfold value_eqb. destruct (value_eq_dec a b); split; congruence. Qed.

Lemma count_of_bump_same (k : value) (acc : list (value * Z)) :
  count_of k (bump k acc) = count_of k acc + 1.
Proof.
  induction acc as [|[k' n] acc IH]; simpl.
  - now rewrite value_eqb_refl.
  - destruct (value_eqb k k') eqn:E; simpl; rewrite E; [reflexivity|exact IH].
Qed.

Lemma count_of_bump_other (k k0 : value) (acc : list (value * Z)) :
  k0 <> k -> count_of k0 (bump k acc) = count_of k0 acc.
Proof.
  intros Hne. induction acc as [|[k' n] acc IH]; simpl.
  - apply value_eqb_neq in Hne. now rewrite Hne.
  - destruct (value_eqb k k') eqn:E; simpl.
    + apply value_eqb_eq in E as <-.
      apply value_eqb_neq in Hne. now rewrite Hne.
    + now rewrite IH.
Qed.

Lemma bump_keys (k : value) (acc : list (value * Z)) :
  map fst (bump k acc) =
  if in_dec value_eq_dec k (map fst acc)
  then map fst acc else map fst acc ++ [k].
Proof.
  induction acc as [|[k' n] acc IH]; simpl; [reflexivity|].
  destruct (value_eqb k k') eqn:E; simpl.
  - apply value_eqb_eq in E as <-.
    destruct (value_eq_dec k k); [reflexivity|contradiction].
  - apply value_eqb_neq in E. rewrite IH.
    destruct (value_eq_dec k' k); [congruence|].
    now destruct (in_dec value_eq_dec k (map fst acc)).
Qed.

Lemma bump_total (k : value) (acc : list (value * Z)) :
  total (bump k acc) = total acc + 1.
Proof.
  induction acc as [|[k' n] acc IH]; simpl; [reflexivity|].
  destruct (value_eqb k k'); simpl; [lia|]. fold (total (bump k acc)).
  fold (total acc). lia.
Qed.

Lemma counted_nil : counted [] [].
Proof. split; simpl; auto; [tauto | constructor]. Qed.

Lemma counted_bump (seen : list value) (acc : list (value * Z)) (k : value) :
  counted seen acc -> counted (seen ++ [k]) (bump k acc).
Proof.
  intros [Hk Hn Hc Ht]. split.
  - intros k0. rewrite bump_keys, in_app_iff.
    destruct (in_dec value_eq_dec k (map fst acc)) as [Hin|Hout].
    + rewrite Hk. simpl. split; [tauto|].
      intros [H|[<-|[]]]; [assumption|now apply Hk].
    + rewrite in_app_iff, Hk. simpl. tauto.
  - rewrite bump_keys.
    destruct (in_dec value_eq_dec k (map fst acc)) as [Hin|Hout];
      [assumption|].
    apply NoDup_app; [assumption|repeat constructor; simpl; tauto|].
    intros x Hx [<-|[]]. contradiction.
  - intros k0. rewrite count_occ_app. simpl.
    destruct (value_eq_dec k k0) as [<-|Hne].
    + rewrite count_of_bump_same, Hc. lia.
    + rewrite count_of_bump_other, Hc by congruence. lia.
  - rewrite bump_total, Ht, length_app. simpl. lia.
Qed.

Lemma group_counts_counted (keys : list value) :
  counted keys (group_counts keys).
Proof.
  unfold group_counts.
  enough (H : forall seen acc, counted seen acc ->
                counted (seen ++ keys) (fold_left (fun a k => bump k a) keys acc))
    by (apply (H [] []), counted_nil).
  induction keys as [|k keys IH]; intros seen acc Hc; simpl.
  - now rewrite app_nil_r.
  - replace (seen ++ k :: keys) with ((seen ++ [k]) ++ keys)
      by (now rewrite <- app_assoc).
    apply IH. now apply counted_bump.
Qed.

Lemma count_of_In (acc : list (value * Z)) (k : value) (n : Z) :
  NoDup (map fst acc) -> In (k, n) acc -> count_of k acc = n.
Proof.
  induction acc as [|[k' n'] acc IH]; simpl; [tauto|].
  intros Hnd [[= -> ->]|Hin].
  - now rewrite value_eqb_refl.
  - inversion Hnd as [|? ? Hout Hnd']; subst.
    destruct (value_eqb k k') eqn:E.
    + apply value_eqb_eq in E as ->. exfalso. apply Hout.
      apply in_map_iff. now exists (k', n).
    + now apply IH.
Qed.

Lemma In_count_of (acc : list (value * Z)) (k : value) :
  In k (map fst acc) -> In (k, count_of k acc) acc.
Proof.
  induction acc as [|[k' n'] acc IH]; simpl; [tauto|].
  destruct (value_eqb k k') eqn:E.
  - apply value_eqb_eq in E as ->. now left.
  - apply value_eqb_neq in E. intros [H|H]; [congruence|right; auto].
Qed.

(** [groupBy(key).count()] has one row per key that occurs, carrying the
    number of its occurrences. *)
Lemma group_counts_spec (keys : list value) (k : value) (n : Z) :
  In (k, n) (group_counts keys) <->
  In k keys /\ n = Z.of_nat (count_occ value_eq_dec keys k).
Proof.
  destruct (group_counts_counted keys) as [Hk Hn Hc _]. split.
  - intros Hin. split.
    + apply Hk. apply in_map_iff. now exists (k, n).
    + rewrite <- Hc. symmetry. now apply count_of_In.
  - intros [Hin ->]. rewrite <- Hc. apply In_count_of. now apply Hk.
Qed.

Lemma group_counts_keys_NoDup (keys : list value) :
  NoDup (map fst (group_counts keys)).
Proof. apply (group_counts_counted keys). Qed.

(** The counts of the groups add up to the number of rows. *)
Lemma group_counts_total (keys : list value) :
  total (group_counts keys) = Z.of_nat (List.length keys).
Proof. apply (group_counts_counted keys). Qed.

(** The groups and their counts do not depend on the order of the rows. *)
Lemma group_counts_Permutation (keys keys' : list value) :
  Permutation keys keys' ->
  Permutation (group_counts keys) (group_counts keys').
Proof.
  intros Hp.
  assert (Hnd : forall l, NoDup (group_counts l)).
  { intros l. eapply NoDup_map_inv. apply group_counts_keys_NoDup. }
  apply NoDup_Permutation; auto.
  intros [k n]. rewrite !group_counts_spec.
  rewrite (Permutation_count_occ value_eq_dec keys keys') in Hp.
  rewrite Hp. split; intros [Hin ->]; split; auto.
  - apply (count_occ_In value_eq_dec). rewrite <- Hp.
    now apply (count_occ_In value_eq_dec).
  - apply (count_occ_In value_eq_dec). rewrite Hp.
    now apply (count_occ_In value_eq_dec).
Qed.

(** Ten joined records, four readmitted and six not. *)
Example readmitted_counts :
  group_counts
    (map VStr ["no"; "yes"; "no"; "no"; "yes"; "no"; "yes"; "no"; "yes"; "no"])
  = [(VStr "no", 6); (VStr "yes", 4)].
Proof. reflexivity. Qed.

Lemma rows_single (cols : list string) (tys : list dtype) (l : list Row) :
  rows (mkDF cols tys [l]) = l.
Proof. unfold rows. cbn [partitions List.concat]. apply app_nil_r. Qed.

Lemma counts_positive (keys : list value) (k : value) (n : Z) :
  In (k, n) (group_counts keys) -> 1 <= n.
Proof.
  intros H. apply group_counts_spec in H as [Hin ->].
  apply (count_occ_In value_eq_dec) in Hin. lia.
Qed.

Lemma column_total_counts (cols : list string) (tys : list dtype)
    (acc : list (value * Z)) :
  column_total 1
    (mkDF cols tys [map (fun kc => [fst kc; VInt (snd kc)]) acc]) =
  total acc.
Proof.
  unfold column_total. rewrite rows_single.
  induction acc as [|[k n] acc IH]; simpl; [reflexivity|].
  fold (total acc). now rewrite IH.
Qed.

(** The table of [groupBy(key).count()]. *)
Lemma group_count_table (key : string) (i : nat) (df : DataFrame) :
  count_table key i df (group_count (mkGrouped key i df)).
Proof.
  unfold count_table, group_count, group_keys.
  cbn [columns group_key key_index grouped]. rewrite rows_single.
  split; [reflexivity|]. split.
  - rewrite map_map. cbn [cell nth fst]. apply group_counts_keys_NoDup.
  - intros r. rewrite in_map_iff. split.
    + intros ([k n] & <- & Hin). apply group_counts_spec in Hin as [Hin ->].
      now exists k.
    + intros (k & Hin & ->).
      exists (k, Z.of_nat (count_occ value_eq_dec (map (cell i) (rows df)) k)).
      split; [reflexivity|]. now apply group_counts_spec.
Qed.

(** A table with the same rows in another order is a count table as well. *)
Lemma count_table_Permutation (key : string) (i : nat) (df t t' : DataFrame) :
  columns t' = columns t -> Permutation (rows t) (rows t') ->
  count_table key i df t -> count_table key i df t'.
Proof.
  intros Hc Hp (Hcols & Hnd & Hrows). split; [congruence|]. split.
  - eapply Permutation_NoDup; [|exact Hnd]. now apply Permutation_map.
  - intros r. rewrite <- Hrows. split; apply Permutation_in;
      [now symmetry|assumption].
Qed.

(** The table of [groupBy(key).agg(round(avg(field), 2))]. *)
Lemma mean_by_table {E : Engine} (key name : string) (i j : nat)
    (tys : list dtype) (df : DataFrame) :
  mean_table key name i j df
    (mkDF [key; name] tys
       [map (fun k => [k; round 2 (avg (map (cell j) (group_of i k df)))])
            (map fst (group_counts (map (cell i) (rows df))))]).
Proof.
  unfold mean_table. cbn [columns]. rewrite rows_single.
  split; [reflexivity|]. split.
  - rewrite map_map. cbn [cell nth]. rewrite map_id.
    apply group_counts_keys_NoDup.
  - intros r. rewrite in_map_iff.
    destruct (group_counts_counted (map (cell i) (rows df))) as [Hk _ _ _].
    split.
    + intros (k & <- & Hin). exists k. split; [now apply Hk|reflexivity].
    + intros (k & Hin & ->). exists k. split; [reflexivity|now apply Hk].
Qed.

End AggregationFacts.

(** ** Ordering by count *)

Module SortFacts.

Lemma desc_before_total (i : nat) (a b : Row) :
  desc_before i a b = false -> desc_before i b a = true.
Proof.
  unfold desc_before.
  destruct (int_cell (cell i a)) as [x|], (int_cell (cell i b)) as [y|];
    try discriminate; auto.
  intros H. apply Z.leb_gt in H. apply Z.leb_le. lia.
Qed.

Lemma desc_before_trans (i : nat) (a b c : Row) :
  desc_before i a b = true -> desc_before i b c = true ->
  desc_before i a c = true.
Proof.
  unfold desc_before.
  destruct (int_cell (cell i a)) as [x|], (int_cell (cell i b)) as [y|],
           (int_cell (cell i c)) as [z|]; try discriminate; auto.
  intros H1 H2. apply Z.leb_le in H1, H2. apply Z.leb_le. lia.
Qed.

Lemma insert_desc_Permutation (i : nat) (a : Row) (l : list Row) :
  Permutation (a :: l) (insert_desc i a l).
Proof.
  induction l as [|b l IH]; simpl; [reflexivity|].
  destruct (desc_before i a b); [reflexivity|].
  rewrite perm_swap. now constructor.
Qed.

Lemma sort_desc_Permutation (i : nat) (l : list Row) :
  Permutation l (sort_desc i l).
Proof.
  unfold sort_desc. induction l as [|a l IH]; simpl; [constructor|].
  rewrite <- insert_desc_Permutation. now constructor.
Qed.

Lemma insert_desc_sorted (i : nat) (a : Row) (l : list Row) :
  StronglySorted (fun x y => desc_before i x y = true) l ->
  StronglySorted (fun x y => desc_before i x y = true) (insert_desc i a l).
Proof.
  induction 1 as [|b l Hs IH Hf]; simpl.
  - repeat constructor.
  - destruct (desc_before i a b) eqn:Hab.
    + constructor; [now constructor|].
      constructor; [exact Hab|].
      eapply Forall_impl; [|exact Hf]. intros c Hbc.
      now apply (desc_before_trans i a b c).
    + constructor; [exact IH|].
      apply (Permutation_Forall (insert_desc_Permutation i a l)).
      constructor; [now apply desc_before_total|exact Hf].
Qed.

Lemma sort_desc_sorted (i : nat) (l : list Row) :
  StronglySorted (fun x y => desc_before i x y = true) (sort_desc i l).
Proof.
  unfold sort_desc. induction l as [|a l IH]; simpl; [constructor|].
  now apply insert_desc_sorted.
Qed.

Lemma StronglySorted_split {A : Type} (R : A -> A -> Prop) (k : nat)
    (l : list A) :
  StronglySorted R l ->
  forall a b, In a (firstn k l) -> In b (skipn k l) -> R a b.
Proof.
  intros Hs. revert k. induction Hs as [|x l Hs IH Hf]; intros k a b.
  - rewrite firstn_nil. intros [].
  - destruct k as [|k]; simpl; [intros []|].
    intros [<-|Ha] Hb.
    + rewrite Forall_forall in Hf. apply Hf.
      rewrite <- (firstn_skipn k l). apply in_or_app. now right.
    + now apply (IH k).
Qed.

End SortFacts.

(** ** What a report holds *)

Module DescribeFacts.

Lemma resolve_count (key : string) (i : nat) :
  resolve [key; "count"] "count" = Ok i -> i = 1%nat.
Proof.
  intros Hres. apply FrameFacts.resolve_Ok in Hres as [_ Hu].
  symmetry. now apply Hu.
Qed.

(** Each of the four kinds of report computes the table the specification
    describes. *)
Lemma aggregate_describes {E : Engine} (a : aggregation) (df t : DataFrame) :
  aggregate a df = Ok t -> describes a df t.
Proof.
  destruct a as [key|k key|field name|key field name];
    unfold aggregate, groupBy, describes.
  - destruct (resolve (columns df) key) as [i|e]; cbn [bind]; [|discriminate].
    intros [= <-]. exists i. split; [reflexivity|].
    apply AggregationFacts.group_count_table.
  - destruct (resolve (columns df) key) as [i|e]; cbn [bind]; [|discriminate].
    unfold orderBy_desc. unfold group_count at 1. cbn [columns group_key].
    destruct (resolve [key; "count"] "count") as [c|e] eqn:Hc; cbn [bind];
      [|discriminate].
    apply resolve_count in Hc as ->.
    intros [= <-]. exists i. split; [reflexivity|]. split.
    + apply (AggregationFacts.count_table_Permutation key i df
               (group_count (mkGrouped key i df))).
      * reflexivity.
      * rewrite AggregationFacts.rows_single.
        apply SortFacts.sort_desc_Permutation.
      * apply AggregationFacts.group_count_table.
    + rewrite AggregationFacts.rows_single. apply SortFacts.sort_desc_sorted.
  - unfold select_round_avg.
    destruct (resolve (columns df) field) as [j|e]; cbn [bind]; [|discriminate].
    destruct (coercible (type_at j (types df))) eqn:Hty; [|discriminate].
    intros [= <-]. exists j. split; [reflexivity|]. split; [exact Hty|].
    split; reflexivity.
  - destruct (resolve (columns df) key) as [i|e]; cbn [bind]; [|discriminate].
    unfold agg_round_avg. cbn [grouped group_key key_index].
    destruct (resolve (columns df) field) as [j|e]; cbn [bind]; [|discriminate].
    destruct (coercible (type_at j (types df))) eqn:Hty; [|discriminate].
    intros [= <-]. exists i, j. split; [reflexivity|]. split; [reflexivity|].
    split; [exact Hty|]. apply AggregationFacts.mean_by_table.
Qed.

End DescribeFacts.

(** ** The console *)

Module IoFacts.

Lemma io_bind_fst {A B : Type} (m : io A) (k : A -> io B) :
  fst (io_bind m k) =
  fst m ++ match snd m with Ok a => fst (k a) | Err _ => [] end.
Proof.
  destruct m as [out [a|e]]; cbn [io_bind fst snd].
  - now destruct (k a).
  - now rewrite app_nil_r.
Qed.

Lemma io_bind_snd {A B : Type} (m : io A) (k : A -> io B) :
  snd (io_bind m k) =
  match snd m with Ok a => snd (k a) | Err e => Err e end.
Proof.
  destruct m as [out [a|e]]; cbn [io_bind fst snd]; [|reflexivity].
  now destruct (k a).
Qed.

Lemma console_bind {A B : Type} (m : io A) (k : A -> io B) :
  Forall console (fst m) -> (forall a, Forall console (fst (k a))) ->
  Forall console (fst (io_bind m k)).
Proof.
  intros Hm Hk. rewrite io_bind_fst. apply Forall_app. split; [exact Hm|].
  destruct (snd m); [apply Hk|constructor].
Qed.

Lemma console_lift {A : Type} (r : result A) : Forall console (fst (lift r)).
Proof. constructor. Qed.

Lemma console_print (args : list value) : Forall console (fst (print args)).
Proof. repeat constructor. Qed.

Lemma console_show (n : nat) (df : DataFrame) : Forall console (fst (show n df)).
Proof. repeat constructor. Qed.

Ltac console_step :=
  first [ apply console_print | apply console_show | apply console_lift
        | apply console_bind; [|intros ?] ].

Lemma console_reporting {E : Engine} (df : DataFrame) :
  Forall console (fst (reporting df)).
Proof. unfold reporting. repeat console_step. Qed.

End IoFacts.

(** ** The console reports *)

Module ReportFacts.

Lemma mapM_length {A B : Type} (f : A -> result B) (l : list A) (bs : list B) :
  mapM f l = Ok bs -> List.length bs = List.length l.
Proof.
  intros H. apply SelectFacts.mapM_Forall2 in H.
  symmetry. eapply SelectFacts.Forall2_length_eq. exact H.
Qed.

Lemma resolve_gender : resolve final_columns "gender" = Ok 3%nat.
Proof. reflexivity. Qed.
Lemma resolve_age : resolve final_columns "age" = Ok 2%nat.
Proof. reflexivity. Qed.
Lemma resolve_hospital : resolve final_columns "hospital" = Ok 8%nat.
Proof. reflexivity. Qed.
Lemma resolve_doctor : resolve final_columns "doctor" = Ok 7%nat.
Proof. reflexivity. Qed.
Lemma resolve_readmitted : resolve final_columns "readmitted" = Ok 31%nat.
Proof. reflexivity. Qed.
Lemma resolve_time_in_hospital :
  resolve final_columns "time_in_hospital" = Ok 16%nat.
Proof. reflexivity. Qed.
Lemma resolve_admission_type :
  resolve final_columns "admission_type" = Ok 12%nat.
Proof. reflexivity. Qed.
Lemma resolve_billing_amount :
  resolve final_columns "billing_amount" = Ok 10%nat.
Proof. reflexivity. Qed.
Lemma resolve_patient_id : resolve final_columns "patient_id" = Ok 0%nat.
Proof. reflexivity. Qed.
Lemma resolve_hospital_count : resolve ["hospital"; "count"] "count" = Ok 1%nat.
Proof. reflexivity. Qed.
Lemma resolve_doctor_count : resolve ["doctor"; "count"] "count" = Ok 1%nat.
Proof. reflexivity. Qed.

Ltac resolve_step :=
  first [ rewrite resolve_gender | rewrite resolve_age
        | rewrite resolve_hospital | rewrite resolve_doctor
        | rewrite resolve_readmitted | rewrite resolve_time_in_hospital
        | rewrite resolve_admission_type | rewrite resolve_billing_amount
        | rewrite resolve_hospital_count | rewrite resolve_doctor_count ];
  cbn [bind columns types grouped group_key group_count key_index].

(** One step of a run of step 10: a reference is resolved, or a statement
    that is known to succeed is taken. *)
Ltac run_step :=
  first [ resolve_step
        | progress cbn [io_bind lift print show emit bind columns types
                        grouped group_key key_index] ].

(** On the output schema every report resolves its columns; when the three
    averaged columns have a type [avg] accepts, the seven aggregations are
    defined and step 10 prints them one after the other. *)
Lemma reporting_on_final_schema {E : Engine} (df : DataFrame) :
  columns df = final_columns ->
  coercible (type_at 2 (types df)) = true ->
  coercible (type_at 16 (types df)) = true ->
  coercible (type_at 10 (types df)) = true ->
  exists tables,
    mapM (fun c => aggregate (snd c) df) report_categories = Ok tables /\
    reporting df =
    (List.concat
       (map (fun ct => report_events (fst ct) (snd ct))
            (combine report_categories tables)),
     Ok tt).
Proof.
  destruct df as [cols tys parts]. cbn [columns types]. intros -> H2 H16 H10.
  unfold reporting, report_categories, aggregate, groupBy, select_round_avg,
    orderBy_desc, agg_round_avg.
  cbn [mapM snd fst columns types].
  repeat first [ run_step | rewrite H2 | rewrite H16 | rewrite H10 ].
  eexists. split; reflexivity.
Qed.

(** Step 10 ends without an error only when [avg] accepts the three
    averaged columns. *)
Lemma reporting_types {E : Engine} (df : DataFrame) :
  columns df = final_columns ->
  snd (reporting df) = Ok tt ->
  coercible (type_at 2 (types df)) = true /\
  coercible (type_at 16 (types df)) = true /\
  coercible (type_at 10 (types df)) = true.
Proof.
  destruct df as [cols tys parts]. cbn [columns types]. intros ->.
  unfold reporting, groupBy, select_round_avg, orderBy_desc, agg_round_avg.
  cbn [columns types].
  repeat run_step.
  destruct (coercible (type_at 2 tys));
    [|repeat run_step; intros H; discriminate H].
  repeat run_step.
  destruct (coercible (type_at 16 tys));
    [|repeat run_step; intros H; discriminate H].
  repeat run_step.
  destruct (coercible (type_at 10 tys));
    [|repeat run_step; intros H; discriminate H].
  auto.
Qed.

Lemma sample_on_final_schema (df : DataFrame) :
  columns df = final_columns ->
  exists ids,
    select_columns ["patient_id"] df = Ok ids /\
    rows ids = map (fun r => [cell 0 r]) (rows df) /\
    show_sample_and_row_count df =
    (sample_events df (count (distinct ids)), Ok tt).
Proof.
  destruct df as [cols tys parts]. cbn [columns]. intros ->.
  unfold show_sample_and_row_count, select_columns.
  cbn [mapM columns]. rewrite resolve_patient_id. cbn [bind].
  eexists. split; [reflexivity|]. split; [|reflexivity].
  apply AggregationFacts.rows_single.
Qed.

End ReportFacts.

Module OutputFacts.

(** The script from step 9 on, for a joined output [df]: the console of
    step 9, then what step 10 prints, then, if step 10 ended without an
    error, the write and the stop. *)
Lemma main_on_final {E : Engine} (pf rf : CsvFile) (df : DataFrame) :
  etl_final pf rf = Ok df ->
  columns df = final_columns ->
  exists ids,
    select_columns ["patient_id"] df = Ok ids /\
    rows ids = map (fun r => [cell 0 r]) (rows df) /\
    main pf rf =
    match snd (reporting df) with
    | Ok _ =>
        (sample_events df (count (distinct ids)) ++ fst (reporting df)
         ++ [WriteParquet "overwrite" "output/final_healthcare_etl.parquet" df;
             Stop],
         Ok tt)
    | Err e =>
        (sample_events df (count (distinct ids)) ++ fst (reporting df), Err e)
    end.
Proof.
  intros Hf Hcols. unfold main. rewrite Hf. unfold lift. cbn [io_bind].
  destruct (ReportFacts.sample_on_final_schema df Hcols)
    as (ids & Hids & Hrows & Hs).
  exists ids. split; [exact Hids|]. split; [exact Hrows|].
  rewrite Hs. cbn [io_bind].
  destruct (reporting df) as [out [[]|e]]; cbn [io_bind save emit fst snd];
    reflexivity.
Qed.

Lemma etl_final_columns {E : Engine} (pf rf : CsvFile) (df : DataFrame) :
  etl_final pf rf = Ok df -> columns df = final_columns.
Proof.
  intros Hf.
  destruct (SelectFacts.etl_final_Ok _ _ _ Hf) as (j & _ & Hfd & Hl & Hr).
  now destruct (SelectFacts.final_df_Ok j df Hl Hr Hfd).
Qed.

(** A run that ends without an error. *)
Lemma main_complete {E : Engine} (pf rf : CsvFile) :
  snd (main pf rf) = Ok tt ->
  exists df ids tables,
    etl_final pf rf = Ok df /\
    select_columns ["patient_id"] df = Ok ids /\
    rows ids = map (fun r => [cell 0 r]) (rows df) /\
    mapM (fun c => aggregate (snd c) df) report_categories = Ok tables /\
    main pf rf =
      (sample_events df (count (distinct ids))
       ++ List.concat
            (map (fun ct => report_events (fst ct) (snd ct))
                 (combine report_categories tables))
       ++ [WriteParquet "overwrite" "output/final_healthcare_etl.parquet" df;
           Stop],
       Ok tt).
Proof.
  intros Hok.
  destruct (etl_final pf rf) as [df|e] eqn:Hf.
  2:{ unfold main in Hok. rewrite Hf in Hok. discriminate Hok. }
  pose proof (etl_final_columns pf rf df Hf) as Hcols.
  destruct (main_on_final pf rf df Hf Hcols) as (ids & Hids & Hrows & Hm).
  rewrite Hm in Hok |- *.
  destruct (snd (reporting df)) as [[]|e] eqn:Hr; [|discriminate Hok].
  destruct (ReportFacts.reporting_types df Hcols Hr) as (H2 & H16 & H10).
  destruct (ReportFacts.reporting_on_final_schema df Hcols H2 H16 H10)
    as (tables & Ht & He).
  exists df, ids, tables. rewrite He. cbn [fst]. auto.
Qed.

End OutputFacts.

(** C8, as the specification words it, fails: a run can end before any report.
    With every patient age noted as a date, schema inference makes [age] a
    date column, the comparison of step 7 is a type mismatch and the script
    stops there with nothing printed. *)
Lemma no_report_on_dated_ages :
  map (cell 1) (List.concat (splits dated_patients)) =
    [VDate 19753; VDate 19753] /\
  type_at 1 (types (read_csv dated_patients)) = DateType /\
  forall E : Engine,
    main dated_patients sample_readmissions = ([], Err (Mismatch "between")).
Proof.
  split; [reflexivity|]. split; [vm_compute; reflexivity|].
  intros E. vm_compute. reflexivity.
Qed.

(** C8, amended.  Every run of the program that ends without an error has
    printed exactly seven report categories, each a grouped aggregation of
    the joined output, in the order: gender distribution, average age, top-5
    hospitals, top-5 doctors, readmission counts, average time in hospital
    by readmission status, average billing by admission type.  The count
    reports hold one row per value of the key with the number of joined
    records that hold it, the top-5 reports the same rows in descending
    order of count, the average reports the rounded mean of the field over
    the joined records, over all of them or group by group.  (Before them
    the console holds the four lines of step 9; after them the output is
    written.) *)
Theorem seven_reports {E : Engine} (pf rf : CsvFile) :
  snd (main pf rf) = Ok tt ->
  map fst report_categories =
    [ "Gender Distribution"; "Average Age";
      "Top 5 Hospitals by Patient Count"; "Top 5 Doctors by Patient Count";
      "Readmission Counts"; "Average Time in Hospital by Readmission";
      "Average Billing by Admission Type" ] /\
  exists df unique tables,
    etl_final pf rf = Ok df /\
    Forall2 (fun c t => describes (snd c) df t) report_categories tables /\
    fst (reporting df) =
      List.concat
        (map (fun ct => report_events (fst ct) (snd ct))
             (combine report_categories tables)) /\
    fst (main pf rf) =
      sample_events df unique
      ++ List.concat
           (map (fun ct => report_events (fst ct) (snd ct))
                (combine report_categories tables))
      ++ [WriteParquet "overwrite" "output/final_healthcare_etl.parquet" df;
          Stop].
Proof.
  intros Hok. split; [reflexivity|].
  destruct (OutputFacts.main_complete pf rf Hok)
    as (df & ids & tables & Hf & _ & _ & Ht & Hm).
  exists df, (count (distinct ids)), tables.
  split; [exact Hf|]. split; [|split].
  - apply SelectFacts.mapM_Forall2 in Ht.
    eapply SelectFacts.Forall2_impl_in; [|exact Ht].
    intros c t _ Hc. now apply DescribeFacts.aggregate_describes.
  - pose proof (OutputFacts.etl_final_columns pf rf df Hf) as Hcols.
    destruct (OutputFacts.main_on_final pf rf df Hf Hcols) as (ids' & _ & _ & Hm').
    rewrite Hm' in Hok.
    destruct (snd (reporting df)) as [[]|e] eqn:Hr; [|discriminate Hok].
    destruct (ReportFacts.reporting_types df Hcols Hr) as (H2 & H16 & H10).
    destruct (ReportFacts.reporting_on_final_schema df Hcols H2 H16 H10)
      as (tables' & Ht' & He).
    rewrite Ht in Ht'. injection Ht' as <-. now rewrite He.
  - now rewrite Hm.
Qed.

Lemma seven_reports_witness :
  exists unique tables,
    Forall2 (fun c t => describes (E := sample_engine) (snd c) sample_final t)
            report_categories tables /\
    fst (main (E := sample_engine) sample_patients sample_readmissions) =
      sample_events sample_final unique
      ++ List.concat
           (map (fun ct => report_events (fst ct) (snd ct))
                (combine report_categories tables))
      ++ [WriteParquet "overwrite" "output/final_healthcare_etl.parquet"
            sample_final; Stop].
Proof.
  destruct (seven_reports (E := sample_engine) sample_patients
              sample_readmissions)
    as (_ & df & unique & tables & Hf & Hd & _ & Hm).
  - vm_compute. reflexivity.
  - rewrite sample_etl_final in Hf. injection Hf as <-.
    exists unique, tables. split; assumption.
Defined.

(** C10.  Every record of the output that is shown, aggregated and written
    has the fixed schema of thirty-two selected fields, [patient_id] through
    [readmitted] in that order, each drawn from its source column; the
    derived [age_lower] and the readmission side's [age] label are not among
    them, and no output field draws from the place of either.  Step 9 shows
    records of this output, whatever is written is this output, and in a run
    that ends without an error the console holds step 9 and the seven
    aggregations of this output, after which this output is written. *)
Theorem final_schema {E : Engine} (pf rf : CsvFile) (df : DataFrame) :
  etl_final pf rf = Ok df ->
  columns df = final_columns /\
  List.length (columns df) = 32%nat /\
  NoDup (columns df) /\
  Forall (fun r => List.length r = 32%nat) (rows df) /\
  ~ In "age_lower" (columns df) /\
  ~ In (Right, "age") final_sources /\
  ~ In (Right, "age_lower") final_sources /\
  (exists j locs,
      etl_join pf rf = Ok j /\
      Forall2 (drawn_from j) final_sources locs /\
      rows df =
        map (fun lx => map (fun loc => pick loc (fst lx) (snd lx)) locs)
            (pairs j) /\
      (forall i, resolve (right_columns j) "age" = Ok i ->
                 ~ In (Right, i) locs) /\
      (forall i, resolve (right_columns j) "age_lower" = Ok i ->
                 ~ In (Right, i) locs)) /\
  (exists unique, firstn 4 (fst (main pf rf)) = sample_events df unique) /\
  (forall mode path d,
      In (WriteParquet mode path d) (fst (main pf rf)) -> d = df) /\
  (snd (main pf rf) = Ok tt ->
   exists unique tables,
     mapM (fun c => aggregate (snd c) df) report_categories = Ok tables /\
     fst (main pf rf) =
       sample_events df unique
       ++ List.concat
            (map (fun ct => report_events (fst ct) (snd ct))
                 (combine report_categories tables))
       ++ [WriteParquet "overwrite" "output/final_healthcare_etl.parquet" df;
           Stop]).
Proof.
  intros Hf.
  destruct (SelectFacts.etl_final_Ok _ _ _ Hf) as (j & Hj & Hfd & Hl & Hr).
  destruct (SelectFacts.final_df_Ok j df Hl Hr Hfd)
    as (Hcols & locs & Hlocs & _ & Hrows).
  pose proof SelectFacts.final_sources_drop_age as [Hage Hlower].
  destruct (OutputFacts.main_on_final pf rf df Hf Hcols) as (ids & _ & _ & Hm).
  pose proof (IoFacts.console_reporting df) as Hconsole.
  rewrite Hcols at 1 2 3 4.
  split; [reflexivity|]. split; [reflexivity|].
  split; [apply SelectFacts.final_columns_NoDup|]. split.
  { rewrite Hrows. apply Forall_forall. intros r Hin.
    apply in_map_iff in Hin as (lx & <- & _). rewrite length_map.
    symmetry. apply (SelectFacts.Forall2_length_eq _ _ _ Hlocs). }
  split; [apply (SelectFacts.not_In_by_dec string_dec); reflexivity|].
  split; [exact Hage|]. split; [exact Hlower|]. split.
  { exists j, locs. split; [exact Hj|]. split; [exact Hlocs|].
    split; [exact Hrows|]. split; intros i Hi.
    - exact (SelectFacts.not_selected j locs Right "age" i Hlocs Hage Hi).
    - exact (SelectFacts.not_selected j locs Right "age_lower" i Hlocs Hlower Hi). }
  split; [|split].
  - exists (count (distinct ids)). rewrite Hm.
    destruct (snd (reporting df)); reflexivity.
  - intros mode path d Hin. rewrite Hm in Hin.
    assert (Hno : ~ In (WriteParquet mode path d) (fst (reporting df))).
    { intros H. rewrite Forall_forall in Hconsole. exact (Hconsole _ H). }
    destruct (snd (reporting df)); cbn [fst] in Hin;
      repeat (apply in_app_or in Hin as [Hin|Hin]);
      try contradiction;
      repeat (destruct Hin as [Hin|Hin]; try discriminate Hin);
      try contradiction.
    now injection Hin.
  - intros Hok.
    destruct (OutputFacts.main_complete pf rf Hok)
      as (df' & ids' & tables & Hf' & _ & _ & Ht & Hm').
    rewrite Hf in Hf'. injection Hf' as <-.
    exists (count (distinct ids')), tables. split; [exact Ht|].
    now rewrite Hm'.
Qed.

Lemma final_schema_witness :
  columns sample_final = final_columns /\
  Forall (fun r => List.length r = 32%nat) (rows sample_final) /\
  exists unique,
    firstn 4 (fst (main (E := sample_engine) sample_patients
                     sample_readmissions)) =
    sample_events sample_final unique.
Proof.
  destruct (final_schema _ _ _ sample_etl_final)
    as (H1 & _ & _ & H4 & _ & _ & _ & _ & H9 & _).
  split; [assumption|]. split; assumption.
Defined.

(** * Further properties of the script *)

(** ** Column references: a missing name *)

Module ResolveFacts.

Lemma positions_length (name : string) (cols : list string) (i : nat) :
  List.length (positions name cols i) = count_occ string_dec cols name.
Proof.
  revert i. induction cols as [|c cs IH]; intros i; simpl; [reflexivity|].
  destruct (String.eqb_spec c name) as [->|Hne].
  - destruct (string_dec name name); [|contradiction]. simpl. now rewrite IH.
  - destruct (string_dec c name); [contradiction|]. apply IH.
Qed.

(** A reference resolves exactly when one column carries the name. *)
Lemma resolve_by_count (cols : list string) (name : string) :
  match count_occ string_dec cols name with
  | O => resolve cols name = Err (Unresolved name)
  | S O => exists i, resolve cols name = Ok i
  | S (S _) => resolve cols name = Err (Ambiguous name)
  end.
Proof.
  rewrite <- (positions_length name cols 0). unfold resolve.
  destruct (positions name cols 0) as [|i [|j l]]; simpl; eauto.
Qed.

Lemma main_fails_silently {E : Engine} (pf rf : CsvFile) (e : error) :
  readmissions_df rf = Err e -> main pf rf = ([], Err e).
Proof.
  intros Hr. unfold main, etl_final, etl_join.
  destruct (patients_df_rows pf) as (pdf & -> & _). cbn [bind].
  rewrite Hr. reflexivity.
Qed.

End ResolveFacts.

(** X2.  Step 5 needs an [age] column in the readmission source.  With no
    column that normalises to [age] it fails with an unresolved reference and
    the script ends there with nothing printed and nothing written; with
    exactly one such column step 5 succeeds whatever the cells hold and
    whatever their type. *)
Theorem readmissions_df_by_header {E : Engine} (pf rf : CsvFile) :
  (canonical_count (header rf) "age" = 0%nat ->
   readmissions_df rf = Err (Unresolved "age") /\
   main pf rf = ([], Err (Unresolved "age"))) /\
  (canonical_count (header rf) "age" = 1%nat ->
   exists df, readmissions_df rf = Ok df).
Proof.
  unfold canonical_count.
  pose proof (ResolveFacts.resolve_by_count (map normalize (header rf)) "age") as H.
  pose proof (JoinFacts.readmissions_df_rows rf) as Hr.
  split; intros Hc; rewrite Hc in H.
  - rewrite H in Hr. split; [exact Hr|].
    now apply ResolveFacts.main_fails_silently.
  - destruct H as [i Hi]. rewrite Hi in Hr.
    destruct Hr as (df & Hdf & _). now exists df.
Qed.

(** ** Steps 4 and 5 keep the rows in shape *)

Module ShapeFacts.

Lemma read_csv_normalized_conforms (f : CsvFile) (r : Row) :
  In r (rows (read_csv f)) ->
  List.length r = List.length (map normalize (header f)).
Proof. intros H. rewrite length_map. now apply read_csv_conforms. Qed.

Lemma read_csv_rows (f : CsvFile) :
  rows (read_csv f) =
  map (fit (List.length (header f))) (List.concat (splits f)).
Proof.
  unfold rows, read_csv. cbn [partitions]. symmetry. apply concat_map.
Qed.

End ShapeFacts.

(** X3.  Steps 4 and 5 keep every record: the patient frame and the
    readmission frame have as many rows as their source has data lines, in
    both every row has exactly one cell per column of the new schema, and the
    new schema is the normalised header with the added column placed last
    (or left where a column of that name already was). *)
Theorem added_column_keeps_shape (pf rf : CsvFile) (rdf : DataFrame) :
  readmissions_df rf = Ok rdf ->
  exists pdf,
    patients_df pf = Ok pdf /\
    columns pdf = put_column (map normalize (header pf)) "patient_id" /\
    columns rdf = put_column (map normalize (header rf)) "age_lower" /\
    List.length (rows pdf) = List.length (List.concat (splits pf)) /\
    List.length (rows rdf) = List.length (List.concat (splits rf)) /\
    conforms pdf /\ conforms rdf.
Proof.
  intros Hrdf.
  destruct (patients_df_rows pf) as (pdf & Hp & Hpc & _ & Hpr).
  pose proof (JoinFacts.readmissions_df_rows rf) as Hr.
  destruct (resolve (map normalize (header rf)) "age") as [iage|e];
    [|congruence].
  destruct Hr as (rdf' & Hrdf' & Hrc & _ & Hrr).
  assert (rdf' = rdf) as -> by congruence.
  exists pdf. split; [exact Hp|]. split; [exact Hpc|]. split; [exact Hrc|].
  split; [|split; [|split]].
  - rewrite Hpr, length_map, length_combine, patient_ids_length.
    rewrite ShapeFacts.read_csv_rows, length_map. lia.
  - now rewrite Hrr, length_map, ShapeFacts.read_csv_rows, length_map.
  - unfold conforms. rewrite Hpr, Hpc. apply Forall_forall. intros r Hin.
    apply in_map_iff in Hin as ([id r0] & <- & Hin). cbn [fst snd].
    apply in_combine_r in Hin. apply FrameFacts.put_cell_length.
    now apply ShapeFacts.read_csv_normalized_conforms.
  - unfold conforms. rewrite Hrr, Hrc. apply Forall_forall. intros r Hin.
    apply in_map_iff in Hin as (r0 & <- & Hin).
    apply FrameFacts.put_cell_length.
    now apply ShapeFacts.read_csv_normalized_conforms.
Qed.

Lemma added_column_keeps_shape_witness :
  exists pdf rdf,
    patients_df sample_patients = Ok pdf /\
    readmissions_df sample_readmissions = Ok rdf /\
    List.length (rows pdf) = 2%nat /\ List.length (rows rdf) = 5%nat /\
    conforms pdf /\ conforms rdf.
Proof.
  destruct (readmissions_df sample_readmissions) as [rdf|e] eqn:Hr;
    [|vm_compute in Hr; discriminate Hr].
  destruct (added_column_keeps_shape sample_patients sample_readmissions rdf Hr)
    as (pdf & Hp & _ & _ & Hlp & Hlr & Hcp & Hcr).
  exists pdf, rdf. repeat split; auto.
Defined.

(** X4.  Step 4 only adds: every column of the patient source other than
    [patient_id] is still there under its normalised name, at the same
    position, and holds the same cells in the same order. *)
Theorem patients_df_keeps_columns (pf : CsvFile) (name : string) (j : nat) :
  name <> "patient_id" ->
  resolve (map normalize (header pf)) name = Ok j ->
  exists pdf,
    patients_df pf = Ok pdf /\
    resolve (columns pdf) name = Ok j /\
    map (cell j) (rows pdf) = map (cell j) (rows (read_csv pf)).
Proof.
  intros Hne Hj.
  destruct (patients_df_rows pf) as (pdf & Hp & Hpc & _ & Hpr).
  exists pdf. split; [exact Hp|]. rewrite Hpc. split.
  - rewrite KeepFacts.resolve_put_column_other; [exact Hj|congruence].
  - rewrite Hpr, map_map.
    assert (Hlen := patient_ids_length pf).
    revert Hlen.
    assert (Hconf : forall r, In r (rows (read_csv pf)) ->
                      List.length r = List.length (map normalize (header pf)))
      by apply ShapeFacts.read_csv_normalized_conforms.
    revert Hconf. generalize (rows (read_csv pf)). generalize (patient_ids pf).
    intros ids. induction ids as [|id ids IH]; intros [|r rs] Hconf Hlen;
      simpl in *; try discriminate; [reflexivity|].
    f_equal.
    + apply (FrameFacts.cell_put_cell_other
               (map normalize (header pf)) "patient_id" name (VInt id) r j j);
        auto.
      rewrite KeepFacts.resolve_put_column_other; [exact Hj|congruence].
    + apply IH; [auto|lia].
Qed.

Lemma patients_df_keeps_columns_witness :
  exists pdf,
    patients_df sample_patients = Ok pdf /\
    resolve (columns pdf) "hospital" = Ok 7%nat /\
    map (cell 7) (rows pdf) = [VStr "Sons and Miller"; VStr "Kim Inc"].
Proof.
  destruct (patients_df_keeps_columns sample_patients "hospital" 7)
    as (pdf & Hp & Hr & Hc).
  - discriminate.
  - reflexivity.
  - exists pdf. repeat split; auto.
Defined.

(** X5.  Step 5 only adds: every column of the readmission source other
    than [age_lower] (the [age] label among them) keeps its position and its
    cells, and the added [age_lower] cell of a record is what the parser
    makes of the record's [age] cell: null, or an integer between 0 and
    2147483647. *)
Theorem readmissions_df_keeps_columns (rf : CsvFile) (rdf : DataFrame) :
  readmissions_df rf = Ok rdf ->
  exists iage,
    resolve (map normalize (header rf)) "age" = Ok iage /\
    resolve (columns rdf) "age" = Ok iage /\
    (forall name j,
        name <> "age_lower" ->
        resolve (map normalize (header rf)) name = Ok j ->
        resolve (columns rdf) name = Ok j /\
        map (cell j) (rows rdf) = map (cell j) (rows (read_csv rf))) /\
    (forall il,
        resolve (columns rdf) "age_lower" = Ok il ->
        map (cell il) (rows rdf) =
          map (fun r => lower_cell (cell iage r)) (rows (read_csv rf)) /\
        Forall (fun v => v = VNull \/
                         exists n, v = VInt n /\ 0 <= n <= 2147483647)
               (map (cell il) (rows rdf))).
Proof.
  intros Hrdf.
  pose proof (JoinFacts.readmissions_df_rows rf) as Hr.
  destruct (resolve (map normalize (header rf)) "age") as [iage|e] eqn:Hage;
    [|congruence].
  destruct Hr as (rdf' & Hrdf' & Hrc & _ & Hrr).
  assert (rdf' = rdf) as -> by congruence.
  assert (Hconf : Forall (fun r => List.length r =
                            List.length (map normalize (header rf)))
                         (rows (read_csv rf))).
  { apply Forall_forall. apply ShapeFacts.read_csv_normalized_conforms. }
  assert (Hkeep : forall name j,
             name <> "age_lower" ->
             resolve (map normalize (header rf)) name = Ok j ->
             resolve (columns rdf) name = Ok j /\
             map (cell j) (rows rdf) = map (cell j) (rows (read_csv rf))).
  { intros name j Hne Hj. rewrite Hrc, Hrr.
    apply (KeepFacts.kept_column _ "age_lower" name j
             (fun r => lower_cell (cell iage r))); auto. }
  exists iage. split; [reflexivity|]. split.
  { apply (Hkeep "age" iage); [discriminate|exact Hage]. }
  split; [exact Hkeep|].
  intros il Hil.
  assert (Hcells : map (cell il) (rows rdf) =
                   map (fun r => lower_cell (cell iage r)) (rows (read_csv rf))).
  { rewrite Hrr, map_map. apply map_ext_in. intros r Hin.
    apply FrameFacts.cell_put_cell.
    - now apply ShapeFacts.read_csv_normalized_conforms.
    - now rewrite <- Hrc. }
  split; [exact Hcells|]. rewrite Hcells. apply Forall_forall.
  intros v Hv. apply in_map_iff in Hv as (r & <- & _).
  destruct (PredicateFacts.lower_cell_shape (cell iage r)) as [Hn|[n Hn]];
    [now left|right].
  exists n. split; [exact Hn|].
  now apply PredicateFacts.lower_cell_range in Hn.
Qed.

Lemma readmissions_df_keeps_columns_witness :
  exists rdf,
    readmissions_df sample_readmissions = Ok rdf /\
    map (cell 17) (rows rdf) = [VInt 70; VNull; VNull; VInt 30; VInt 70] /\
    map (cell 0) (rows rdf) =
      [VStr "[70-80)"; VStr "invalid"; VNull; VStr "[30-40)"; VStr "[70-80)"].
Proof.
  destruct (readmissions_df sample_readmissions) as [rdf|e] eqn:Hr;
    [|vm_compute in Hr; discriminate Hr].
  destruct (readmissions_df_keeps_columns sample_readmissions rdf Hr)
    as (iage & Hage & _ & Hkeep & Hlow).
  injection Hage as <-.
  exists rdf. split; [reflexivity|]. split.
  - destruct (Hlow 17%nat) as [Hc _]; [|rewrite Hc; reflexivity].
    vm_compute in Hr. injection Hr as <-. reflexivity.
  - destruct (Hkeep "age"%string 0%nat) as [_ Hc];
      [discriminate|reflexivity|rewrite Hc; reflexivity].
Defined.

(** ** The label's upper bound *)

(** X6.  The parser reads the lower bound only.  A label that starts with
    [[d-u)] parses to [d] (to null when [d] exceeds 2147483647) whatever the
    upper bound [u] and whatever follows the closing parenthesis: [[20-25)]
    and [[20-30) approx.] open the same window as [[20-30)]. *)
Theorem upper_bound_ignored (d u post : string) :
  Regex.digit_run d -> Regex.digit_run u ->
  age_lower ("[" ++ d ++ "-" ++ u ++ ")" ++ post)%string =
  if Cast.digits_value d <=? Cast.int_max
  then Some (Cast.digits_value d) else None.
Proof.
  intros Hd Hu. apply ParserFacts.age_lower_find_Some.
  assert (Hm : Regex.match_here ("[" ++ d ++ "-" ++ u ++ ")" ++ post)%string
               = Some d).
  { apply RegexFacts.match_here_Some. now exists u, post. }
  destruct ("[" ++ d ++ "-" ++ u ++ ")" ++ post)%string; cbn [Regex.find];
    now rewrite Hm.
Qed.

Lemma upper_bound_ignored_witness :
  age_lower "[20-25)" = Some 20 /\ age_lower "[20-30) approx." = Some 20.
Proof.
  split.
  - apply (upper_bound_ignored "20" "25" ""); split;
      solve [discriminate | reflexivity].
  - apply (upper_bound_ignored "20" "30" " approx."); split;
      solve [discriminate | reflexivity].
Defined.

(** ** The join, exactly *)

Module ExactFacts.

Lemma nested_loop_length {E : Engine} (ia il : nat) (ps rs : list Row) :
  (List.length (nested_loop ia il ps rs)
   <= List.length ps * List.length rs)%nat.
Proof.
  unfold nested_loop. induction ps as [|l ps IH]; simpl; [lia|].
  rewrite length_app, length_map.
  pose proof (filter_length_le (matches ia il l) rs). lia.
Qed.

End ExactFacts.

(** X7.  The join is exactly the filtered product: a pair is in the joined
    output if and only if its patient is a row of the patient frame, its
    readmission a row of the readmission frame, the patient's [age] has a
    value to compare, [age_lower] is an integer and
    [age_lower <= age <= age_lower + 9] with the sum in 32-bit arithmetic.
    No row is invented, a null on either side never joins, and the output has
    at most (patients x readmissions) rows. *)
Theorem join_is_filtered_product {E : Engine} (pf rf : CsvFile)
    (j : JoinedFrame) :
  etl_join pf rf = Ok j ->
  exists pdf rdf ia il,
    patients_df pf = Ok pdf /\
    readmissions_df rf = Ok rdf /\
    left_columns j = columns pdf /\
    right_columns j = columns rdf /\
    resolve (columns pdf) "age" = Ok ia /\
    resolve (columns rdf) "age_lower" = Ok il /\
    (forall l x,
        In (l, x) (pairs j) <->
        In l (rows pdf) /\ In x (rows rdf) /\
        exists q lo,
          age_value (cell ia l) = Some q /\ cell il x = VInt lo /\
          (inject_Z lo <= q)%Q /\
          (q <= inject_Z (Cast.wrap32 (lo + 9)))%Q) /\
    (List.length (pairs j)
     <= List.length (rows pdf) * List.length (rows rdf))%nat.
Proof.
  intros Hj.
  apply PipelineFacts.etl_join_Ok in Hj
    as (pdf & rdf & ia & il & iage & Hp & Hr & Hia & Hil & _ & _ & _ & _ & ->).
  exists pdf, rdf, ia, il. cbn [left_columns right_columns pairs].
  do 6 (split; [solve [auto]|]). split.
  - intros l x. rewrite PipelineFacts.nested_loop_pairs.
    now rewrite PredicateFacts.matches_true.
  - apply ExactFacts.nested_loop_length.
Qed.

Lemma join_is_filtered_product_witness :
  exists j,
    etl_join (E := sample_engine) sample_patients sample_readmissions = Ok j /\
    (List.length (pairs j) <= 2 * 5)%nat.
Proof.
  destruct (etl_join (E := sample_engine) sample_patients sample_readmissions)
    as [j|e] eqn:Hj; [|vm_compute in Hj; discriminate Hj].
  exists j. split; [reflexivity|].
  destruct (join_is_filtered_product _ _ _ Hj)
    as (pdf & rdf & ia & il & Hp & Hr & _ & _ & _ & _ & _ & Hlen).
  vm_compute in Hp, Hr. injection Hp as <-. injection Hr as <-.
  exact Hlen.
Defined.



(** ** The readmission source: the order of the lines *)

Module OrderFacts.

(** Steps 2 to 7 as one expression over the two sources. *)
Lemma etl_join_eq {E : Engine} (pf rf : CsvFile) :
  etl_join pf rf =
  (pdf <- patients_df pf ;;
   iage <- resolve (map normalize (header rf)) "age" ;;
   ia <- resolve (columns pdf) "age" ;;
   il <- resolve (put_column (map normalize (header rf)) "age_lower")
           "age_lower" ;;
   if coercible (type_at ia (types pdf))
   then
     Ok (mkJoined "p" (columns pdf) (types pdf)
           "r" (put_column (map normalize (header rf)) "age_lower")
           (put_type (map normalize (header rf)) "age_lower" IntegerType
              (types (read_csv rf)))
           (nested_loop ia il (rows pdf)
              (map (with_lower (header rf) iage) (rows (read_csv rf)))))
   else Err (Mismatch "between")).
Proof.
  unfold etl_join. destruct (patients_df pf) as [pdf|e]; cbn [bind];
    [|reflexivity].
  pose proof (JoinFacts.readmissions_df_rows rf) as Hr.
  destruct (resolve (map normalize (header rf)) "age") as [iage|e];
    cbn [bind]; [|now rewrite Hr].
  destruct Hr as (rdf & -> & Hc & Ht & Hrows). cbn [bind].
  pose proof (JoinFacts.joined_df_pairs pdf rdf) as Hj.
  rewrite Hc, Hrows, Ht in Hj.
  destruct (resolve (columns pdf) "age") as [ia|e]; cbn [bind]; [|exact Hj].
  destruct (resolve (put_column (map normalize (header rf)) "age_lower")
              "age_lower") as [il|e]; cbn [bind]; exact Hj.
Qed.

Lemma Permutation_filter' {A : Type} (f : A -> bool) (l l' : list A) :
  Permutation l l' -> Permutation (filter f l) (filter f l').
Proof.
  induction 1 as [|x l l' Hp IH|x y l|l l' l'' H1 IH1 H2 IH2]; simpl.
  - constructor.
  - destruct (f x); [now constructor|assumption].
  - destruct (f x), (f y); try reflexivity. constructor.
  - now transitivity (filter f l').
Qed.

Lemma nested_loop_Permutation {E : Engine} (ia il : nat) (ps rs rs' : list Row) :
  Permutation rs rs' ->
  Permutation (nested_loop ia il ps rs) (nested_loop ia il ps rs').
Proof.
  intros Hp. unfold nested_loop. induction ps as [|l ps IH]; simpl.
  - constructor.
  - apply Permutation_app; [|exact IH].
    apply Permutation_map. now apply Permutation_filter'.
Qed.

End OrderFacts.

(** X10.  The order of the readmission lines only reorders the output: for
    two readmission sources with the same header whose data lines are a
    permutation of each other, the runs fail alike or yield the same schema
    and the same joined records up to order, hence the same row count and,
    for every grouping column, the same groups with the same counts. *)
Theorem readmission_order_irrelevant {E : Engine} (pf : CsvFile)
    (h : list string) (s s' : list (list Row)) :
  Permutation (List.concat s) (List.concat s') ->
  match etl_final pf (mkCsv h s), etl_final pf (mkCsv h s') with
  | Ok df, Ok df' =>
      columns df = columns df' /\
      Permutation (rows df) (rows df') /\
      count df = count df' /\
      forall key g g',
        groupBy key df = Ok g -> groupBy key df' = Ok g' ->
        Permutation (rows (group_count g)) (rows (group_count g'))
  | Err e, Err e' => e = e'
  | _, _ => False
  end.
Proof.
  intros Hs. unfold etl_final. rewrite !OrderFacts.etl_join_eq.
  rewrite !ShapeFacts.read_csv_rows. cbn [header splits].
  destruct (patients_df pf) as [pdf|e]; cbn [bind]; [|reflexivity].
  destruct (resolve (map normalize h) "age") as [iage|e]; cbn [bind];
    [|reflexivity].
  destruct (resolve (columns pdf) "age") as [ia|e]; cbn [bind];
    [|reflexivity].
  destruct (resolve (put_column (map normalize h) "age_lower") "age_lower")
    as [il|e]; cbn [bind]; [|reflexivity].
  destruct (coercible (type_at ia (types pdf))); cbn [bind]; [|reflexivity].
  unfold final_df, select. cbn [left_alias left_columns right_alias
                                right_columns pairs].
  destruct (mapM _ final_selection) as [locs|e]; cbn [bind]; [|reflexivity].
  cbn [columns]. rewrite !AggregationFacts.rows_single.
  assert (Hrows :
    Permutation
      (map (fun lr => map (fun loc => pick loc (fst lr) (snd lr)) locs)
         (nested_loop ia il (rows pdf)
            (map (with_lower h iage)
               (map (fit (List.length h)) (List.concat s)))))
      (map (fun lr => map (fun loc => pick loc (fst lr) (snd lr)) locs)
         (nested_loop ia il (rows pdf)
            (map (with_lower h iage)
               (map (fit (List.length h)) (List.concat s')))))).
  { apply Permutation_map, OrderFacts.nested_loop_Permutation.
    now do 2 apply Permutation_map. }
  split; [reflexivity|]. split; [exact Hrows|]. split.
  - unfold count. rewrite !AggregationFacts.rows_single.
    f_equal. now apply Permutation_length.
  - intros key g g'. unfold groupBy. cbn [columns].
    destruct (resolve (map output_name final_selection) key) as [i|e];
      cbn [bind]; [|discriminate].
    intros [= <-] [= <-]. unfold group_count, group_keys.
    cbn [group_key key_index grouped]. rewrite !AggregationFacts.rows_single.
    apply Permutation_map, AggregationFacts.group_counts_Permutation.
    now apply Permutation_map.
Qed.

Lemma readmission_order_irrelevant_witness :
  exists df',
    etl_final (E := sample_engine) sample_patients
      (mkCsv (header sample_readmissions)
         [rev (List.concat (splits sample_readmissions))]) = Ok df' /\
    Permutation (rows sample_final) (rows df') /\
    count sample_final = count df'.
Proof.
  pose proof (readmission_order_irrelevant (E := sample_engine) sample_patients
                (header sample_readmissions)
                (splits sample_readmissions)
                [rev (List.concat (splits sample_readmissions))]) as H.
  change (mkCsv (header sample_readmissions) (splits sample_readmissions))
    with sample_readmissions in H.
  rewrite sample_etl_final in H.
  destruct (etl_final (E := sample_engine) sample_patients
              (mkCsv (header sample_readmissions)
                 [rev (List.concat (splits sample_readmissions))]))
    as [df'|e].
  - exists df'. split; [reflexivity|].
    destruct H as (_ & Hp & Hc & _); [|split; assumption].
    cbn [List.concat]. rewrite app_nil_r. apply Permutation_rev.
  - exfalso. apply H. cbn [List.concat]. rewrite app_nil_r.
    apply Permutation_rev.
Defined.

(** ** The count reports *)

(** X13.  A count report ([groupBy(key).count()]) has the two columns [key]
    and [count], one row per value the key column takes in the frame (null
    included), no value twice; the count of a value is the number of rows
    that hold it, at least 1, and the counts add up to the number of rows of
    the frame.  Grouping by a column the frame does not have is an analysis
    error. *)
Theorem count_report {E : Engine} (key : string) (df : DataFrame) :
  match resolve (columns df) key with
  | Ok i =>
      exists t,
        aggregate (CountBy key) df = Ok t /\
        columns t = [key; "count"] /\
        (forall k n,
            In [k; VInt n] (rows t) <->
            In k (map (cell i) (rows df)) /\
            n = Z.of_nat (count_occ value_eq_dec (map (cell i) (rows df)) k)) /\
        Forall (fun r => exists k n, r = [k; VInt n] /\ 1 <= n) (rows t) /\
        NoDup (map (cell 0) (rows t)) /\
        column_total 1 t = count df
  | Err e => aggregate (CountBy key) df = Err e
  end.
Proof.
  unfold aggregate, groupBy.
  destruct (resolve (columns df) key) as [i|e]; cbn [bind]; [|reflexivity].
  eexists. split; [reflexivity|]. unfold group_count, group_keys.
  cbn [columns group_key key_index grouped].
  rewrite AggregationFacts.column_total_counts, AggregationFacts.rows_single.
  split; [reflexivity|]. split; [|split; [|split]].
  - intros k n. rewrite <- AggregationFacts.group_counts_spec.
    rewrite in_map_iff. split.
    + intros ([k' n'] & [= -> ->] & Hin). exact Hin.
    + intros Hin. now exists (k, n).
  - apply Forall_forall. intros r Hin.
    apply in_map_iff in Hin as ([k n] & <- & Hin).
    exists k, n. split; [reflexivity|].
    now apply AggregationFacts.counts_positive in Hin.
  - rewrite map_map. cbn [cell nth fst].
    apply AggregationFacts.group_counts_keys_NoDup.
  - rewrite AggregationFacts.group_counts_total. unfold count.
    now rewrite length_map.
Qed.

(** ** The top-5 reports *)

(** X14.  A top-[k] report ([groupBy(key).count().orderBy(count desc)] shown
    with [show(k)]) holds the rows of the count report, none lost and none
    added, in descending order of count; what it shows are the first [k] of
    them at most, and no group left out has a larger count than a group
    shown. *)
Theorem top_report {E : Engine} (k : nat) (key : string)
    (df t : DataFrame) :
  aggregate (TopCountBy k key) df = Ok t ->
  exists c,
    aggregate (CountBy key) df = Ok c /\
    columns t = columns c /\
    Permutation (rows c) (rows t) /\
    StronglySorted (fun a b => desc_before 1 a b = true) (rows t) /\
    (List.length (firstn (shown_rows (TopCountBy k key)) (rows t)) <= k)%nat /\
    forall a b,
      In a (firstn (shown_rows (TopCountBy k key)) (rows t)) ->
      In b (skipn (shown_rows (TopCountBy k key)) (rows t)) ->
      exists m n, cell 1 a = VInt m /\ cell 1 b = VInt n /\ n <= m.
Proof.
  unfold aggregate, groupBy, orderBy_desc.
  destruct (resolve (columns df) key) as [i|e]; cbn [bind]; [|discriminate].
  unfold group_count at 1. cbn [columns group_key].
  assert (Hc : resolve [key; "count"] "count" = Ok 1%nat \/
               exists e, resolve [key; "count"] "count" = Err e).
  { destruct (resolve [key; "count"] "count") as [j|e] eqn:Hres; [|eauto].
    left. apply FrameFacts.resolve_Ok in Hres as [Hn Hu].
    f_equal. symmetry. now apply Hu. }
  destruct Hc as [Hc|[e Hc]]; rewrite Hc; cbn [bind]; [|discriminate].
  intros [= <-]. eexists. split; [reflexivity|].
  cbn [columns shown_rows]. rewrite AggregationFacts.rows_single.
  pose proof (SortFacts.sort_desc_sorted 1
                (rows (group_count (mkGrouped key i df)))) as Hs.
  split; [reflexivity|]. split; [apply SortFacts.sort_desc_Permutation|].
  split; [exact Hs|]. split; [apply firstn_le_length|].
  intros a b Ha Hb.
  pose proof (SortFacts.StronglySorted_split _ k _ Hs a b Ha Hb) as Hab.
  assert (Hint : forall r, In r (rows (group_count (mkGrouped key i df))) ->
                           exists n, cell 1 r = VInt n).
  { intros r Hr. unfold group_count in Hr. rewrite AggregationFacts.rows_single in Hr.
    apply in_map_iff in Hr as ([k0 n] & <- & _). now exists n. }
  assert (Hin : forall r, In r (sort_desc 1
                                  (rows (group_count (mkGrouped key i df)))) ->
                          exists n, cell 1 r = VInt n).
  { intros r Hr. apply Hint.
    eapply Permutation_in; [|exact Hr].
    symmetry. apply SortFacts.sort_desc_Permutation. }
  destruct (Hin a) as [m Hm].
  { rewrite <- (firstn_skipn k). apply in_or_app. now left. }
  destruct (Hin b) as [n Hn].
  { rewrite <- (firstn_skipn k). apply in_or_app. now right. }
  exists m, n. split; [exact Hm|]. split; [exact Hn|].
  unfold desc_before in Hab. rewrite Hm, Hn in Hab. cbn [int_cell] in Hab.
  now apply Z.leb_le.
Qed.

Lemma top_report_witness :
  exists t,
    aggregate (E := sample_engine) (TopCountBy 1 "hospital") sample_final = Ok t /\
    firstn 1 (rows t) = [[VStr "Kim Inc"; VInt 2]] /\
    skipn 1 (rows t) = [[VStr "Sons and Miller"; VInt 1]].
Proof.
  destruct (aggregate (E := sample_engine) (TopCountBy 1 "hospital") sample_final) as [t|e] eqn:Ht;
    [|vm_compute in Ht; discriminate Ht].
  destruct (top_report 1 "hospital" sample_final t Ht) as (c & _).
  exists t. split; [reflexivity|].
  vm_compute in Ht. injection Ht as <-. split; reflexivity.
Defined.

(** ** The joined output, cell by cell *)

Module FinalFacts.

Lemma cell_of_selected (j : JoinedFrame) (locs : list (side * nat))
    (n : nat) (name : string) (i : nat) (l x : Row) :
  Forall2 (drawn_from j) final_sources locs ->
  nth_error final_sources n = Some (Left, name) ->
  resolve (left_columns j) name = Ok i ->
  cell n (map (fun loc => pick loc l x) locs) = cell i l.
Proof.
  intros Hlocs Hn Hi.
  destruct (SelectFacts.Forall2_nth_error _ _ _ n (Left, name) Hlocs Hn)
    as (loc & Hloc & Hside & Hres).
  cbn [fst snd side_columns] in Hside, Hres.
  unfold cell. erewrite nth_error_nth; cycle 1.
  { rewrite nth_error_map, Hloc. reflexivity. }
  unfold pick. rewrite Hside. unfold cell. congruence.
Qed.

(** The rows of the joined output in terms of the two frames. *)
Lemma final_rows {E : Engine} (pf rf : CsvFile) (df : DataFrame) :
  etl_final pf rf = Ok df ->
  exists pdf rdf ia il ipid (sel : Row * Row -> Row),
    patients_df pf = Ok pdf /\
    readmissions_df rf = Ok rdf /\
    resolve (columns pdf) "age" = Ok ia /\
    resolve (columns rdf) "age_lower" = Ok il /\
    resolve (columns pdf) "patient_id" = Ok ipid /\
    columns df = final_columns /\
    rows df = map sel (nested_loop ia il (rows pdf) (rows rdf)) /\
    type_at 2 (types df) = type_at ia (types pdf) /\
    coercible (type_at ia (types pdf)) = true /\
    forall l x, cell 0 (sel (l, x)) = cell ipid l /\
                cell 2 (sel (l, x)) = cell ia l.
Proof.
  intros Hf.
  destruct (SelectFacts.etl_final_Ok _ _ _ Hf) as (j & Hj & Hfd & Hl & Hr).
  destruct (SelectFacts.final_df_Ok j df Hl Hr Hfd)
    as (Hcols & locs & Hlocs & Htypes & Hrows).
  apply PipelineFacts.etl_join_Ok in Hj
    as (pdf & rdf & ia & il & iage & Hp & Hrd & Hia & Hil & _ & _ & _ & Hty & Ej).
  destruct (SelectFacts.Forall2_nth_error _ _ _ 0 (Left, "patient_id")
              Hlocs eq_refl) as (loc0 & Hloc0 & Hside0 & Hres0).
  cbn [fst snd side_columns] in Hres0.
  exists pdf, rdf, ia, il, (snd loc0),
    (fun lx => map (fun loc => pick loc (fst lx) (snd lx)) locs).
  subst j. cbn [left_columns left_types pairs] in *.
  do 4 (split; [assumption|]). split; [exact Hres0|].
  split; [exact Hcols|]. split; [exact Hrows|]. split; [|split; [exact Hty|]].
  - destruct (SelectFacts.final_age_cell _ locs ia Hlocs Hia) as [Hloc2 _].
    rewrite Htypes. unfold type_at. erewrite nth_error_nth; cycle 1.
    { rewrite nth_error_map, Hloc2. reflexivity. }
    reflexivity.
  - intros l x. cbn [fst snd]. split.
    + apply (cell_of_selected _ locs 0 "patient_id" (snd loc0) l x Hlocs eq_refl).
      exact Hres0.
    + apply (cell_of_selected _ locs 2 "age" ia l x Hlocs eq_refl). exact Hia.
Qed.

End FinalFacts.

(** ** The average reports *)

(** X15.  The average-age report never fails on the joined output: its
    column passed the type check of the join, which is the one [avg] makes.
    It has a single row with a single cell, the rounded mean of the [age]
    cells of the joined records, and each of these cells has a value. *)
Theorem average_age_report {E : Engine} (pf rf : CsvFile) (df : DataFrame) :
  etl_final pf rf = Ok df ->
  exists t,
    aggregate (Mean "age" "avg_age") df = Ok t /\
    columns t = ["avg_age"] /\
    rows t = [[round 2 (avg (map (cell 2) (rows df)))]] /\
    coercible (type_at 2 (types df)) = true /\
    Forall (fun v => exists q, age_value v = Some q) (map (cell 2) (rows df)).
Proof.
  intros Hf.
  destruct (FinalFacts.final_rows _ _ _ Hf)
    as (pdf & rdf & ia & il & ipid & sel & _ & _ & _ & _ & _ & Hcols & Hrows
        & Ht2 & Hty & Hsel).
  rewrite <- Ht2 in Hty.
  unfold aggregate, select_round_avg. rewrite Hcols, ReportFacts.resolve_age.
  cbn [bind]. rewrite Hty. eexists. split; [reflexivity|].
  split; [reflexivity|]. split; [reflexivity|]. split; [reflexivity|].
  rewrite Hrows, map_map. apply Forall_forall. intros v Hv.
  apply in_map_iff in Hv as ([l x] & <- & Hin).
  apply PipelineFacts.nested_loop_pairs in Hin as (_ & _ & Hm).
  apply PredicateFacts.matches_true in Hm as (q & lo & Hq & _).
  exists q. destruct (Hsel l x) as [_ ->]. exact Hq.
Qed.

Lemma average_age_report_witness :
  exists t,
    aggregate (E := sample_engine) (Mean "age" "avg_age") sample_final = Ok t /\
    rows t = [[VDouble (60 # 1)]].
Proof.
  destruct (average_age_report _ _ _ sample_etl_final)
    as (t & Ht & _ & Hrows & _).
  exists t. split; [exact Ht|]. rewrite Hrows. reflexivity.
Defined.

(** X18.  An average-by report ([groupBy(key).agg(round(avg(field), 2))])
    has one row per value the key column takes in the frame, no value twice,
    so the same groups as the count report on that key; the row of a group
    holds the rounded mean of the field over the rows of the group.  A key
    or a field the frame does not have is an analysis error, and so is a
    field of boolean, date or timestamp type. *)
Theorem mean_by_report {E : Engine} (key field name : string) (df : DataFrame) :
  match resolve (columns df) key, resolve (columns df) field with
  | Ok i, Ok j =>
      if coercible (type_at j (types df))
      then
        exists t,
          aggregate (MeanBy key field name) df = Ok t /\
          columns t = [key; name] /\
          NoDup (map (cell 0) (rows t)) /\
          (forall k, In k (map (cell 0) (rows t)) <->
                     In k (map (cell i) (rows df))) /\
          (forall r,
              In r (rows t) <->
              exists k,
                In k (map (cell i) (rows df)) /\
                r = [k; round 2 (avg (map (cell j) (group_of i k df)))])
      else aggregate (MeanBy key field name) df = Err (Mismatch "avg")
  | Err e, _ => aggregate (MeanBy key field name) df = Err e
  | Ok _, Err e => aggregate (MeanBy key field name) df = Err e
  end.
Proof.
  unfold aggregate, groupBy, agg_round_avg.
  destruct (resolve (columns df) key) as [i|e]; cbn [bind grouped columns];
    [|reflexivity].
  destruct (resolve (columns df) field) as [j|e]; cbn [bind]; [|reflexivity].
  cbn [types grouped].
  destruct (coercible (type_at j (types df))); [|reflexivity].
  eexists. split; [reflexivity|].
  destruct (AggregationFacts.mean_by_table key name i j
              [key_type (mkGrouped key i df); avg_type (type_at j (types df))]
              df) as (Hc & Hnd & Hrows).
  unfold group_keys, group_of in *. cbn [group_key key_index grouped] in *.
  split; [exact Hc|]. split; [exact Hnd|]. split; [|exact Hrows].
  intros k. rewrite in_map_iff. split.
  - intros (r & <- & Hr). apply Hrows in Hr as (k' & Hk' & ->). exact Hk'.
  - intros Hk. eexists. split; [|apply Hrows; exists k; split; [exact Hk|reflexivity]].
    reflexivity.
Qed.

Lemma mean_by_report_witness :
  exists t,
    aggregate (E := sample_engine)
      (MeanBy "readmitted" "time_in_hospital" "avg_days") sample_final = Ok t /\
    rows t = [[VStr "yes"; VDouble (3 # 1)]; [VStr "no"; VDouble (8 # 1)]].
Proof.
  pose proof (mean_by_report (E := sample_engine)
                "readmitted" "time_in_hospital" "avg_days" sample_final) as H.
  destruct (resolve (columns sample_final) "readmitted") as [i|e] eqn:Hi;
    [|vm_compute in Hi; discriminate Hi].
  destruct (resolve (columns sample_final) "time_in_hospital") as [j|e] eqn:Hj;
    [|vm_compute in Hj; discriminate Hj].
  vm_compute in Hj. injection Hj as <-.
  destruct (coercible (type_at 16 (types sample_final))) eqn:Hty;
    [|vm_compute in Hty; discriminate Hty].
  destruct H as (t & Ht & _). exists t. split; [exact Ht|].
  vm_compute in Ht. injection Ht as <-. reflexivity.
Defined.

(** ** The two totals of step 9 *)

Module TotalFacts.

Lemma nodup_length_le {A : Type} (dec : forall x y : A, {x = y} + {x <> y})
    (l : list A) :
  (List.length (nodup dec l) <= List.length l)%nat.
Proof.
  induction l as [|a l IH]; simpl; [lia|].
  destruct (in_dec dec a l); simpl; lia.
Qed.

Lemma NoDup_map_injective {A B : Type} (f : A -> B) (l : list A) :
  (forall a b, f a = f b -> a = b) -> NoDup l -> NoDup (map f l).
Proof.
  intros Hinj. induction 1 as [|a l Hout Hnd IH]; simpl; constructor; auto.
  intros Hin. apply in_map_iff in Hin as (b & Hb & Hin).
  apply Hinj in Hb. now subst.
Qed.

Lemma nodup_repeat_app {A : Type} (dec : forall x y : A, {x = y} + {x <> y})
    (b : A) (m : nat) (l : list A) :
  ~ In b l ->
  List.length (nodup dec (repeat b m ++ l)) =
  ((if Nat.eqb m 0 then 0 else 1) + List.length (nodup dec l))%nat.
Proof.
  intros Hout. induction m as [|m IH]; [reflexivity|].
  cbn [repeat app nodup]. destruct (in_dec dec b (repeat b m ++ l)) as [Hin|Hnin].
  - rewrite IH. destruct m as [|m]; [|reflexivity].
    simpl in Hin. contradiction.
  - destruct m as [|m].
    + simpl. reflexivity.
    + exfalso. apply Hnin. now left.
Qed.

(** Distinct values among blocks of repeated, pairwise different values: one
    per block that is not empty. *)
Lemma nodup_blocks {A B : Type} (dec : forall x y : B, {x = y} + {x <> y})
    (f : A -> B) (n : A -> nat) (ps : list A) :
  NoDup (map f ps) ->
  List.length (nodup dec (flat_map (fun l => repeat (f l) (n l)) ps)) =
  List.length (filter (fun l => negb (Nat.eqb (n l) 0)) ps).
Proof.
  induction ps as [|a ps IH]; intros Hnd; [reflexivity|].
  inversion Hnd as [|? ? Hout Hnd']; subst.
  cbn [flat_map filter]. rewrite nodup_repeat_app.
  - rewrite (IH Hnd'). destruct (Nat.eqb (n a) 0); reflexivity.
  - intros Hin. apply Hout. apply in_flat_map in Hin as (l & Hl & Hr).
    apply repeat_spec in Hr. rewrite Hr. now apply in_map.
Qed.

Lemma nested_loop_firsts {E : Engine} {B : Type} (g : Row -> B) (ia il : nat)
    (ps rs : list Row) :
  map (fun lx => g (fst lx)) (nested_loop ia il ps rs) =
  flat_map (fun l => repeat (g l)
                       (List.length (filter (matches ia il l) rs))) ps.
Proof.
  unfold nested_loop. induction ps as [|l ps IH]; [reflexivity|].
  cbn [flat_map]. rewrite map_app, IH. f_equal.
  induction (filter (matches ia il l) rs) as [|x xs IHx]; [reflexivity|].
  simpl. now rewrite IHx.
Qed.

Lemma matched_filter {E : Engine} (ia il : nat) (rs : list Row) (l : Row) :
  negb (Nat.eqb (List.length (filter (matches ia il l) rs)) 0) =
  matched ia il rs l.
Proof.
  unfold matched. induction rs as [|x rs IH]; [reflexivity|].
  simpl. destruct (matches ia il l x); [reflexivity|exact IH].
Qed.

End TotalFacts.

(** X16.  The two totals of step 9.  The row total is the number of joined
    pairs.  The number printed as unique patients is the number of patient
    records that join with at least one readmission record; it exceeds
    neither the row total nor the number of patient records.  (The patient
    identifiers have to be distinct for this, which the bounds of the
    identifier layout ensure.) *)
Theorem step9_totals {E : Engine} (pf rf : CsvFile) (df : DataFrame) :
  Z.of_nat (List.length (splits pf)) <= 2 ^ 30 ->
  Forall (fun part => Z.of_nat (List.length part) <= 2 ^ 33) (splits pf) ->
  etl_final pf rf = Ok df ->
  exists pdf rdf ia il unique,
    patients_df pf = Ok pdf /\
    readmissions_df rf = Ok rdf /\
    resolve (columns pdf) "age" = Ok ia /\
    resolve (columns rdf) "age_lower" = Ok il /\
    In (Print [VStr (nl ++ "Total rows in joined dataset:"); VInt (count df)])
       (fst (main pf rf)) /\
    In (Print [VStr "Total unique patients:"; VInt unique]) (fst (main pf rf)) /\
    count df =
      Z.of_nat (List.length (nested_loop ia il (rows pdf) (rows rdf))) /\
    unique =
      Z.of_nat (List.length (filter (matched ia il (rows rdf)) (rows pdf))) /\
    unique <= count df /\
    unique <= Z.of_nat (List.length (rows pdf)).
Proof.
  intros Hparts Hsizes Hf.
  destruct (FinalFacts.final_rows _ _ _ Hf)
    as (pdf & rdf & ia & il & ipid & sel & Hp & Hr & Hia & Hil & Hipid
        & Hcols & Hrows & _ & _ & Hsel).
  destruct (OutputFacts.main_on_final pf rf df Hf Hcols)
    as (ids & _ & Hids & Hmain).
  assert (Hdistinct :
    count (distinct ids) =
    Z.of_nat (List.length (nodup row_eq_dec
                             (map (fun r => [cell 0 r]) (rows df))))).
  { unfold count, distinct. now rewrite AggregationFacts.rows_single, Hids. }
  assert (Hunique :
    count (distinct ids) =
    Z.of_nat (List.length (filter (matched ia il (rows rdf)) (rows pdf)))).
  { rewrite Hdistinct. f_equal. rewrite Hrows, map_map.
    rewrite (map_ext_in _ (fun lx => [cell ipid (fst lx)])).
    2:{ intros [l x] _. cbn [fst]. now destruct (Hsel l x) as [-> _]. }
    rewrite (TotalFacts.nested_loop_firsts (fun l => [cell ipid l])).
    rewrite (TotalFacts.nodup_blocks row_eq_dec (fun l => [cell ipid l])).
    - f_equal. apply filter_ext. intros l. apply TotalFacts.matched_filter.
    - rewrite <- (map_map (cell ipid) (fun v => [v])).
      destruct (patients_df_rows pf) as (pdf' & Hp' & Hc & _ & Hpr).
      assert (pdf' = pdf) as -> by congruence.
      rewrite Hpr, (patient_id_column pf ipid).
      2:{ rewrite <- Hc. now apply FrameFacts.resolve_Ok in Hipid as [H _]. }
      apply TotalFacts.NoDup_map_injective; [intros a b [= ->]; reflexivity|].
      apply NoDup_map_VInt, IdFacts.StronglySorted_lt_NoDup.
      now apply patient_ids_sorted. }
  assert (Hcount : count df =
            Z.of_nat (List.length (nested_loop ia il (rows pdf) (rows rdf)))).
  { unfold count. now rewrite Hrows, length_map. }
  assert (Hstep9 : forall e, In e (sample_events df (count (distinct ids))) ->
                             In e (fst (main pf rf))).
  { intros e He. rewrite Hmain.
    destruct (snd (reporting df)); cbn [fst]; apply in_or_app; now left. }
  exists pdf, rdf, ia, il, (count (distinct ids)).
  do 4 (split; [assumption|]).
  split; [apply Hstep9; right; right; now left|].
  split; [apply Hstep9; right; right; right; now left|].
  split; [exact Hcount|]. split; [exact Hunique|]. split.
  - rewrite Hdistinct. unfold count.
    pose proof (TotalFacts.nodup_length_le row_eq_dec
                  (map (fun r => [cell 0 r]) (rows df))) as Hle.
    rewrite length_map in Hle. lia.
  - rewrite Hunique. pose proof (filter_length_le (matched ia il (rows rdf))
                                   (rows pdf)). lia.
Qed.

Lemma step9_totals_witness :
  In (Print [VStr (nl ++ "Total rows in joined dataset:"); VInt 3])
     (fst (main (E := sample_engine) sample_patients sample_readmissions)) /\
  In (Print [VStr "Total unique patients:"; VInt 2])
     (fst (main (E := sample_engine) sample_patients sample_readmissions)).
Proof.
  destruct (step9_totals (E := sample_engine)
              sample_patients sample_readmissions sample_final)
    as (pdf & rdf & ia & il & unique & Hp & Hr & Hia & Hil & H1 & H2 & _ & Hu & _).
  - vm_compute. discriminate.
  - apply Forall_forall. intros part [<-|[<-|[]]]; vm_compute; discriminate.
  - exact sample_etl_final.
  - split; [exact H1|].
    vm_compute in Hp, Hr. injection Hp as <-. injection Hr as <-.
    vm_compute in Hia, Hil. injection Hia as <-. injection Hil as <-.
    vm_compute in Hu. subst unique. exact H2.
Defined.

(** ** The patient source: what its partitioning touches *)

Module PartitionFacts.

Lemma tail_sources_not_id :
  Forall (fun src => src <> (Left, "patient_id")) (tl final_sources).
Proof.
  apply Forall_forall. intros src Hin ->. revert Hin.
  apply (SelectFacts.not_In_by_dec side_name_eq_dec). reflexivity.
Qed.

(** The places the select list resolves to. *)
Lemma selection_drawn (lc rc : list string) (lt rt : list dtype)
    (prs : list (Row * Row)) (locs : list (side * nat)) :
  mapM (fun s => resolve_qualified "p" lc "r" rc (reference s))
       final_selection = Ok locs ->
  Forall2 (drawn_from (mkJoined "p" lc lt "r" rc rt prs)) final_sources locs.
Proof.
  intros Hm.
  apply SelectFacts.mapM_Forall2 in Hm.
  assert (H : Forall2 (fun s loc =>
                exists src, Some src = source_of "p" "r" s /\
                            drawn_from (mkJoined "p" lc lt "r" rc rt prs) src loc)
              final_selection locs).
  { eapply SelectFacts.Forall2_impl_in; [|exact Hm]. intros s loc _ Hs.
    apply (SelectFacts.resolve_qualified_source
             (mkJoined "p" lc lt "r" rc rt prs)) in Hs as (src & Hsrc & Hd).
    now exists src. }
  clear Hm. revert H. generalize SelectFacts.final_sources_of_selection.
  generalize final_sources. generalize final_selection.
  intros sel. revert locs.
  induction sel as [|s sel IH]; intros locs srcs Heq HF.
  - destruct srcs; [|discriminate]. inversion HF. constructor.
  - destruct srcs as [|src srcs]; [discriminate|].
    simpl in Heq. injection Heq as Hs Hrest.
    inversion HF as [|? loc ? locs' (src' & Hsrc' & Hd) HF']; subst.
    rewrite Hs in Hsrc'. injection Hsrc' as ->.
    constructor; [exact Hd|]. now apply IH.
Qed.

(** A joined output row without its first cell does not depend on the
    identifier written into the patient row. *)
Lemma selected_tail_gen (cols rcols : list string) (lt rt : list dtype)
    (prs : list (Row * Row))
    (srcs : list (side * string)) (locs : list (side * nat)) (r x : Row)
    (id id' : Z) :
  Forall2 (drawn_from (mkJoined "p" (put_column cols "patient_id") lt
                         "r" rcols rt prs))
          srcs locs ->
  Forall (fun src => src <> (Left, "patient_id")) srcs ->
  List.length r = List.length cols ->
  map (fun loc => pick loc (put_cell cols "patient_id" (VInt id) r) x) locs =
  map (fun loc => pick loc (put_cell cols "patient_id" (VInt id') r) x) locs.
Proof.
  intros Hlocs Hne Hlen.
  induction Hlocs as [|src loc srcs locs [Hside Hres] _ IH]; [reflexivity|].
  inversion Hne as [|? ? Hsrc Hne']; subst. cbn [map].
  rewrite (IH Hne'). f_equal. unfold pick. rewrite Hside.
  destruct src as [[|] name]; cbn [fst snd side_columns left_columns] in *;
    [|reflexivity].
  assert (Hname : "patient_id"%string <> name) by congruence.
  rewrite KeepFacts.resolve_put_column_other in Hres by exact Hname.
  assert (Hres' : resolve (put_column cols "patient_id") name = Ok (snd loc))
    by now rewrite KeepFacts.resolve_put_column_other.
  rewrite (FrameFacts.cell_put_cell_other cols "patient_id" name (VInt id) r
             (snd loc) (snd loc)); auto.
  rewrite (FrameFacts.cell_put_cell_other cols "patient_id" name (VInt id') r
             (snd loc) (snd loc)); auto.
Qed.

Lemma selected_tail (cols rcols : list string) (lt rt : list dtype)
    (prs : list (Row * Row))
    (locs : list (side * nat)) (r x : Row) (id id' : Z) :
  Forall2 (drawn_from (mkJoined "p" (put_column cols "patient_id") lt
                         "r" rcols rt prs))
          final_sources locs ->
  List.length r = List.length cols ->
  tl (map (fun loc => pick loc (put_cell cols "patient_id" (VInt id) r) x) locs) =
  tl (map (fun loc => pick loc (put_cell cols "patient_id" (VInt id') r) x) locs).
Proof.
  intros Hlocs Hlen.
  remember final_sources as srcs eqn:Esrcs.
  destruct Hlocs as [|src loc srcs locs _ Htail]; [reflexivity|].
  cbn [map tl].
  apply (selected_tail_gen cols rcols lt rt prs srcs); auto.
  replace srcs with (tl final_sources) by (now rewrite <- Esrcs).
  apply tail_sources_not_id.
Qed.

Lemma matches_kept_age {E : Engine} (cols : list string) (ia il : nat) (r x : Row)
    (id id' : Z) :
  resolve (put_column cols "patient_id") "age" = Ok ia ->
  List.length r = List.length cols ->
  matches ia il (put_cell cols "patient_id" (VInt id) r) x =
  matches ia il (put_cell cols "patient_id" (VInt id') r) x.
Proof.
  intros Hia Hlen. unfold matches.
  assert (Hc : forall v, cell ia (put_cell cols "patient_id" v r) = cell ia r).
  { intros v. apply (FrameFacts.cell_put_cell_other cols "patient_id" "age");
      auto; try discriminate.
    now rewrite KeepFacts.resolve_put_column_other in Hia by discriminate. }
  now rewrite !Hc.
Qed.

Lemma Forall2_app_same {A B : Type} (R : A -> B -> Prop) (l1 l2 : list A)
    (m1 m2 : list B) :
  Forall2 R l1 m1 -> Forall2 R l2 m2 -> Forall2 R (l1 ++ l2) (m1 ++ m2).
Proof. induction 1; simpl; auto. Qed.

Lemma renumbered {E : Engine} (cols : list string) (ia il : nat) (sel sel' : Row * Row -> Row)
    (ids ids' : list Z) (raw rs : list Row) :
  List.length ids = List.length raw ->
  List.length ids' = List.length raw ->
  (forall r id id' x, In r raw ->
      matches ia il (put_cell cols "patient_id" (VInt id) r) x =
      matches ia il (put_cell cols "patient_id" (VInt id') r) x) ->
  (forall r id id' x, In r raw ->
      tl (sel (put_cell cols "patient_id" (VInt id) r, x)) =
      tl (sel' (put_cell cols "patient_id" (VInt id') r, x))) ->
  Forall2 (fun a b => tl a = tl b)
    (map sel
       (nested_loop ia il
          (map (fun ir => put_cell cols "patient_id" (VInt (fst ir)) (snd ir))
               (combine ids raw)) rs))
    (map sel'
       (nested_loop ia il
          (map (fun ir => put_cell cols "patient_id" (VInt (fst ir)) (snd ir))
               (combine ids' raw)) rs)).
Proof.
  revert ids ids'. induction raw as [|r raw IH]; intros ids ids' Hl Hl' Hm Hs.
  - destruct ids, ids'; try discriminate. constructor.
  - destruct ids as [|id ids], ids' as [|id' ids']; try discriminate.
    cbn [combine map nested_loop flat_map fst snd]. rewrite !map_app.
    apply Forall2_app_same.
    + rewrite (filter_ext _ _ (fun x => Hm r id id' x (or_introl eq_refl))).
      induction (filter _ rs) as [|x xs IHx]; simpl; constructor; auto.
      apply Hs. now left.
    + apply IH; simpl in *; try lia.
      * intros; apply Hm; now right.
      * intros; apply Hs; now right.
Qed.

End PartitionFacts.

Module AnalysisFacts.

Lemma final_df_eq (lc rc : list string) (lt rt : list dtype)
    (prs : list (Row * Row)) :
  final_df (mkJoined "p" lc lt "r" rc rt prs) =
  (locs <- mapM (fun s => resolve_qualified "p" lc "r" rc (reference s))
             final_selection ;;
   Ok (mkDF final_columns
         (map (fun loc => pick_type loc lt rt) locs)
         [map (fun lx => map (fun loc => pick loc (fst lx) (snd lx)) locs)
              prs])).
Proof. reflexivity. Qed.

Lemma Forall2_tl_map (l l' : list Row) :
  Forall2 (fun a b => tl a = tl b) l l' ->
  map (@tl value) l = map (@tl value) l'.
Proof. induction 1 as [|a b l l' Hab _ IH]; simpl; congruence. Qed.

End AnalysisFacts.

(** X17.  How the patient source is split into partitions shows in the
    identifiers only: two patient sources with the same header and the same
    data lines in the same order give joined outputs with the same schema
    and, up to the order of the rows, the same rows but for the first cell
    of each, the [patient_id]. *)
Theorem patient_splits_touch_ids_only {E : Engine} (rf : CsvFile)
    (h : list string) (s s' : list (list Row)) (df df' : DataFrame) :
  List.concat s = List.concat s' ->
  etl_final (mkCsv h s) rf = Ok df ->
  etl_final (mkCsv h s') rf = Ok df' ->
  columns df = columns df' /\
  nth_error (columns df) 0 = Some "patient_id" /\
  Permutation (map (@tl value) (rows df)) (map (@tl value) (rows df')).
Proof.
  intros Hs. unfold etl_final. rewrite !OrderFacts.etl_join_eq.
  destruct (patients_df_rows (mkCsv h s)) as (pdf & -> & Hc & _ & Hr).
  destruct (patients_df_rows (mkCsv h s')) as (pdf' & -> & Hc' & _ & Hr').
  cbn [bind header] in *. rewrite Hc, Hc'.
  destruct (resolve (map normalize (header rf)) "age") as [iage|e];
    cbn [bind]; [|discriminate].
  destruct (resolve (put_column (map normalize h) "patient_id") "age")
    as [ia|e] eqn:Hia; cbn [bind]; [|discriminate].
  destruct (resolve (put_column (map normalize (header rf)) "age_lower")
              "age_lower") as [il|e]; cbn [bind]; [|discriminate].
  destruct (coercible (type_at ia (types pdf))); cbn [bind]; [|discriminate].
  destruct (coercible (type_at ia (types pdf'))); cbn [bind];
    [|intros _ H; discriminate H].
  rewrite !AnalysisFacts.final_df_eq.
  destruct (mapM _ final_selection) as [locs|e] eqn:Hlocs; cbn [bind];
    [|discriminate].
  intros [= <-] [= <-]. cbn [columns]. rewrite !AggregationFacts.rows_single.
  split; [reflexivity|]. split; [reflexivity|].
  rewrite Hr, Hr'.
  assert (Hraw : rows (read_csv (mkCsv h s')) = rows (read_csv (mkCsv h s))).
  { rewrite !ShapeFacts.read_csv_rows. cbn [header splits]. now rewrite Hs. }
  rewrite Hraw.
  assert (Hconf : forall r, In r (rows (read_csv (mkCsv h s))) ->
                    List.length r = List.length (map normalize h)).
  { intros r Hin.
    now apply (ShapeFacts.read_csv_normalized_conforms (mkCsv h s)). }
  match goal with
  | |- Permutation (map _ ?a) (map _ ?b) =>
      enough (Hsame : Forall2 (fun x y => tl x = tl y) a b)
        by (rewrite (AnalysisFacts.Forall2_tl_map _ _ Hsame); reflexivity)
  end.
  apply PartitionFacts.renumbered.
  - apply (patient_ids_length (mkCsv h s)).
  - rewrite <- Hraw. apply (patient_ids_length (mkCsv h s')).
  - intros r id id' x Hin. apply PartitionFacts.matches_kept_age; auto.
  - intros r id id' x Hin. cbn [fst snd].
    apply (PartitionFacts.selected_tail _
             (put_column (map normalize (header rf)) "age_lower")
             (types pdf)
             (put_type (map normalize (header rf)) "age_lower" IntegerType
                (types (read_csv rf)))
             []); [|auto].
    now apply PartitionFacts.selection_drawn.
Qed.

Lemma patient_splits_touch_ids_only_witness :
  exists df',
    etl_final (E := sample_engine)
      (mkCsv (header sample_patients) [List.concat (splits sample_patients)])
      sample_readmissions = Ok df' /\
    map (cell 0) (rows sample_final) = [VInt 0; VInt 8589934592; VInt 8589934592] /\
    map (cell 0) (rows df') = [VInt 0; VInt 1; VInt 1] /\
    Permutation (map (@tl value) (rows sample_final))
                (map (@tl value) (rows df')).
Proof.
  destruct (etl_final (E := sample_engine)
              (mkCsv (header sample_patients)
                 [List.concat (splits sample_patients)])
              sample_readmissions) as [df'|e] eqn:Hf';
    [|vm_compute in Hf'; discriminate Hf'].
  exists df'. split; [reflexivity|]. split; [reflexivity|]. split.
  - vm_compute in Hf'. injection Hf' as <-. reflexivity.
  - apply (patient_splits_touch_ids_only (E := sample_engine)
             sample_readmissions
             (header sample_patients) (splits sample_patients)
             [List.concat (splits sample_patients)]).
    + cbn [List.concat]. now rewrite app_nil_r.
    + exact sample_etl_final.
    + exact Hf'.
Defined.

(** ** What stops a run *)

Module TypeFacts.

Lemma type_at_infer (n i : nat) (rs : list Row) :
  (i < n)%nat ->
  type_at i (infer_schema n rs) = infer_column (map (cell i) rs).
Proof.
  intros Hi. unfold type_at, infer_schema.
  apply nth_error_nth. rewrite nth_error_map.
  rewrite (nth_error_nth' (seq 0 n) 0%nat) by now rewrite length_seq.
  now rewrite seq_nth.
Qed.

Lemma infer_schema_length (n : nat) (rs : list Row) :
  List.length (infer_schema n rs) = n.
Proof. unfold infer_schema. now rewrite length_map, length_seq. Qed.

Lemma type_replace_other (cols : list string) (name other : string)
    (t : dtype) (tys : list dtype) (i : nat) :
  nth_error cols i = Some other -> other <> name ->
  type_at i (replace_types cols name t tys) = type_at i tys.
Proof.
  unfold type_at. revert tys i.
  induction cols as [|c cs IH]; intros tys i Hi Hne.
  - destruct i; discriminate.
  - destruct tys as [|x xs]; [reflexivity|]. simpl.
    destruct i as [|i]; simpl in *.
    + injection Hi as ->.
      destruct (String.eqb_spec other name); [contradiction|reflexivity].
    + now apply IH.
Qed.

(** [withColumn] leaves the type of another column as it was. *)
Lemma type_put_other (cols : list string) (name other : string)
    (t : dtype) (tys : list dtype) (i : nat) :
  List.length tys = List.length cols ->
  nth_error cols i = Some other -> other <> name ->
  type_at i (put_type cols name t tys) = type_at i tys.
Proof.
  intros Hlen Hi Hne. unfold put_type.
  destruct (has_column name cols).
  - now apply (type_replace_other cols name other).
  - unfold type_at. apply app_nth1. rewrite Hlen.
    apply nth_error_Some. congruence.
Qed.

(** The type of a column of the patient frame is the one inferred from the
    cells of the source. *)
Lemma patient_column_type (f : CsvFile) (df : DataFrame) (name : string)
    (i : nat) :
  patients_df f = Ok df ->
  name <> "patient_id" ->
  resolve (map normalize (header f)) name = Ok i ->
  resolve (columns df) name = Ok i /\
  type_at i (types df) = infer_column (map (cell i) (rows (read_csv f))).
Proof.
  intros Hdf Hne Hi.
  destruct (patients_df_rows f) as (df' & Hdf' & Hc & Ht & _).
  assert (df' = df) as -> by congruence.
  split.
  { rewrite Hc, KeepFacts.resolve_put_column_other; [exact Hi|congruence]. }
  apply FrameFacts.resolve_Ok in Hi as [Hn _].
  assert (Hlt : (i < List.length (header f))%nat).
  { rewrite <- (length_map normalize). apply nth_error_Some. congruence. }
  rewrite Ht, (type_put_other _ "patient_id" name); auto.
  - unfold read_csv. cbn [types]. now apply type_at_infer.
  - unfold read_csv. cbn [types].
    now rewrite infer_schema_length, length_map.
Qed.

(** Step 10 fails with a type mismatch of [avg] or not at all. *)
Lemma reporting_outcome {E : Engine} (df : DataFrame) :
  columns df = final_columns ->
  snd (reporting df) = Ok tt \/ snd (reporting df) = Err (Mismatch "avg").
Proof.
  destruct df as [cols tys parts]. cbn [columns]. intros ->.
  unfold reporting, groupBy, select_round_avg, orderBy_desc, agg_round_avg.
  cbn [columns types].
  repeat ReportFacts.run_step.
  destruct (coercible (type_at 2 tys));
    [|repeat ReportFacts.run_step; now right].
  repeat ReportFacts.run_step.
  destruct (coercible (type_at 16 tys));
    [|repeat ReportFacts.run_step; now right].
  repeat ReportFacts.run_step.
  destruct (coercible (type_at 10 tys));
    [|repeat ReportFacts.run_step; now right].
  repeat ReportFacts.run_step. now left.
Qed.

End TypeFacts.

(** X12.  What stops a run after step 8.  Once the joined output exists,
    the run ends without an error exactly when the [time_in_hospital] and
    the [billing_amount] column are of a type [avg] accepts (the [age]
    column is, having passed the join).  It has then put twenty events out:
    the four of step 9, a title and a table for each of the seven reports,
    the write and the stop.  Otherwise it ends with the type mismatch of
    [avg], after step 9 and before anything is written. *)
Theorem run_completes {E : Engine} (pf rf : CsvFile) (df : DataFrame) :
  etl_final pf rf = Ok df ->
  resolve (columns df) "time_in_hospital" = Ok 16%nat /\
  resolve (columns df) "billing_amount" = Ok 10%nat /\
  (snd (main pf rf) = Ok tt <->
   coercible (type_at 16 (types df)) = true /\
   coercible (type_at 10 (types df)) = true) /\
  (snd (main pf rf) = Ok tt -> List.length (fst (main pf rf)) = 20%nat) /\
  (snd (main pf rf) <> Ok tt ->
   snd (main pf rf) = Err (Mismatch "avg") /\
   (exists unique, firstn 4 (fst (main pf rf)) = sample_events df unique) /\
   Forall console (fst (main pf rf))).
Proof.
  intros Hf.
  pose proof (OutputFacts.etl_final_columns pf rf df Hf) as Hcols.
  destruct (FinalFacts.final_rows _ _ _ Hf)
    as (pdf & rdf & ia & il & ipid & sel & _ & _ & _ & _ & _ & _ & _
        & Ht2 & Hty & _).
  rewrite <- Ht2 in Hty.
  destruct (OutputFacts.main_on_final pf rf df Hf Hcols) as (ids & _ & _ & Hm).
  rewrite Hcols. split; [reflexivity|]. split; [reflexivity|].
  split; [|split].
  - split.
    + intros Hok. rewrite Hm in Hok.
      destruct (snd (reporting df)) as [[]|e] eqn:Hr; [|discriminate Hok].
      destruct (ReportFacts.reporting_types df Hcols Hr) as (_ & H16 & H10).
      now split.
    + intros [H16 H10].
      destruct (ReportFacts.reporting_on_final_schema df Hcols Hty H16 H10)
        as (tables & _ & He).
      rewrite Hm, He. reflexivity.
  - intros Hok.
    destruct (OutputFacts.main_complete pf rf Hok)
      as (df' & ids' & tables & _ & _ & _ & Ht & Hm').
    rewrite Hm'. cbn [fst]. apply ReportFacts.mapM_length in Ht.
    destruct tables as [|t1 [|t2 [|t3 [|t4 [|t5 [|t6 [|t7 [|t8 ts]]]]]]]];
      try discriminate Ht. reflexivity.
  - intros Hnot. rewrite Hm in Hnot |- *.
    destruct (TypeFacts.reporting_outcome df Hcols) as [Hr|Hr]; rewrite Hr in *.
    + now contradiction Hnot.
    + cbn [fst snd]. split; [reflexivity|]. split; [now eexists|].
      apply Forall_app. split; [|apply IoFacts.console_reporting].
      repeat constructor.
Qed.

Lemma run_completes_witness :
  snd (main (E := sample_engine) sample_patients sample_readmissions) = Ok tt /\
  List.length
    (fst (main (E := sample_engine) sample_patients sample_readmissions)) =
  20%nat.
Proof.
  destruct (run_completes _ _ _ sample_etl_final) as (_ & _ & Hiff & Hlen & _).
  assert (Hok : snd (main (E := sample_engine) sample_patients
                       sample_readmissions) = Ok tt).
  { apply Hiff. split; vm_compute; reflexivity. }
  split; [exact Hok|]. now apply Hlen.
Defined.

(** X19.  A patient [age] column of a type that does not compare with an
    integer stops the script at the join.  When schema inference types the
    column as boolean, date or timestamp, and step 5 has succeeded, step 7
    is a type mismatch and the script ends there with nothing printed and
    nothing written, whatever the readmission source holds. *)
Theorem mismatch_stops_run {E : Engine} (pf rf : CsvFile) (ia il : nat)
    (rdf : DataFrame) :
  resolve (map normalize (header pf)) "age" = Ok ia ->
  coercible (infer_column (map (cell ia) (rows (read_csv pf)))) = false ->
  readmissions_df rf = Ok rdf ->
  resolve (columns rdf) "age_lower" = Ok il ->
  etl_join pf rf = Err (Mismatch "between") /\
  main pf rf = ([], Err (Mismatch "between")).
Proof.
  intros Hia Hty Hrdf Hil.
  assert (Hj : etl_join pf rf = Err (Mismatch "between")).
  { unfold etl_join.
    destruct (patients_df_rows pf) as (pdf & Hp & _). rewrite Hp, Hrdf.
    cbn [bind].
    destruct (TypeFacts.patient_column_type pf pdf "age" ia Hp) as [Hres Ht];
      [discriminate|exact Hia|].
    pose proof (JoinFacts.joined_df_pairs pdf rdf) as H.
    rewrite Hres, Hil, Ht, Hty in H. exact H. }
  split; [exact Hj|]. unfold main, etl_final. now rewrite Hj.
Qed.

Lemma mismatch_stops_run_witness :
  main (E := sample_engine) dated_patients sample_readmissions =
  ([], Err (Mismatch "between")).
Proof.
  destruct (readmissions_df sample_readmissions) as [rdf|e] eqn:Hr;
    [|vm_compute in Hr; discriminate Hr].
  apply (mismatch_stops_run (E := sample_engine)
           dated_patients sample_readmissions 1 17 rdf).
  - reflexivity.
  - vm_compute. reflexivity.
  - exact Hr.
  - vm_compute in Hr. injection Hr as <-. reflexivity.
Defined.

(** X20.  An age of any comparable type joins.  A single patient whose age
    is an integer, a double or a string that casts to an integer, and lies
    between the lower bound of a readmission label and that bound plus
    nine, joins with that record: the join of the two one-record sources
    succeeds and holds exactly that pair. *)
Theorem typed_age_joins {E : Engine} (a : value) (q : Q) (label : string)
    (lo : Z) :
  age_value a = Some q ->
  age_lower label = Some lo ->
  lo <= Cast.int_max - 9 ->
  (inject_Z lo <= q)%Q ->
  (q <= inject_Z (lo + 9))%Q ->
  exists j,
    etl_join (mkCsv ["Age"] [[[a]]]) (bucket label) = Ok j /\
    pairs j = [([a; VInt 0], [VStr label; VInt lo])].
Proof.
  intros Ha Hl Hfit Hlo Hhi.
  assert (Hx : lower_cell (VStr label) = VInt lo).
  { apply PredicateFacts.lower_cell_VInt. now exists label. }
  assert (H0 : 0 <= lo) by (apply PredicateFacts.lower_cell_range in Hx; lia).
  assert (Hty : coercible (infer_column [a]) = true).
  { destruct a as [|n|d|s| |negative| | |]; try discriminate Ha.
    - unfold infer_column. cbn [map cell_type fold_left].
      destruct ((Cast.int_min <=? n) && (n <=? Cast.int_max));
        [reflexivity|].
      destruct ((- 9223372036854775808 <=? n) && (n <=? 9223372036854775807));
        reflexivity.
    - reflexivity.
    - reflexivity. }
  assert (Hm : matches 0 1 [a; VInt 0] [VStr label; VInt lo] = true).
  { apply PredicateFacts.matches_true. exists q, lo.
    split; [exact Ha|]. split; [reflexivity|]. split; [exact Hlo|].
    rewrite PredicateFacts.wrap32_small by (unfold Cast.int_min, Cast.int_max in *; lia).
    exact Hhi. }
  rewrite OrderFacts.etl_join_eq.
  destruct (patients_df_rows (mkCsv ["Age"] [[[a]]]))
    as (pdf & Hp & Hc & _ & Hr).
  destruct (TypeFacts.patient_column_type _ pdf "age" 0 Hp) as [Hres Ht];
    [discriminate|reflexivity|].
  rewrite Hp. cbn [bind].
  change (resolve (map normalize (header (bucket label))) "age") with
    (@Ok nat 0%nat).
  cbn [bind]. rewrite Hres. cbn [bind].
  change (resolve (put_column (map normalize (header (bucket label)))
                     "age_lower") "age_lower") with (@Ok nat 1%nat).
  cbn [bind]. rewrite Ht.
  change (map (cell 0) (rows (read_csv (mkCsv ["Age"] [[[a]]])))) with [a].
  rewrite Hty. eexists. split; [reflexivity|].
  cbn [pairs]. rewrite Hr.
  change (map _ (combine _ _)) with [[a; VInt 0]].
  change (map _ (rows (read_csv (bucket label)))) with
    [[VStr label; lower_cell (VStr label)]].
  rewrite Hx. unfold nested_loop. cbn [flat_map filter].
  rewrite Hm. reflexivity.
Qed.

Lemma typed_age_joins_witness :
  exists j,
    etl_join (E := sample_engine) (mkCsv ["Age"] [[[VDouble (51 # 2)]]])
      (bucket "[20-30)") = Ok j /\
    pairs j = [([VDouble (51 # 2); VInt 0], [VStr "[20-30)"; VInt 20])].
Proof.
  apply (typed_age_joins (E := sample_engine) (VDouble (51 # 2)) (51 # 2)
           "[20-30)" 20).
  - reflexivity.
  - reflexivity.
  - vm_compute. discriminate.
  - vm_compute. discriminate.
  - vm_compute. discriminate.
Defined.
